(** * A Jenkins pipeline client: state derivation and triggers

    Shallow embedding of [piper.py] (class [JenkinsPipeline]).  Python values
    decoded from JSON are an inductive type, Python exceptions are an error
    type, and the object together with the outside world (the HTTP requests
    sent so far and the number of clock readings taken) is threaded through a
    small state-and-exception monad in which the state survives a raise, as
    the attributes of a Python object do. *)

From Stdlib Require Import List ZArith String Ascii Bool Lia Sorted.
Import ListNotations.
Set Warnings "-register-all".
Open Scope string_scope.
Open Scope list_scope.
Open Scope Z_scope.

(** ** Python values *)

(** What [response.json()] can produce.  [JNull] is Python's [None]; numbers
    are the integers (the timestamps of the remote API are integer
    epoch-milliseconds); a dictionary keeps its insertion order and holds
    each key once. *)
Inductive json : Type :=
| JNull
| JBool (b : bool)
| JInt (z : Z)
| JStr (s : string)
| JList (l : list json)
| JDict (d : list (string * json)).

Inductive exn : Type :=
| IndexError | KeyError | TypeError | ValueError | AttributeError
| RequestException.

Inductive res (A : Type) : Type :=
| Ok (a : A)
| Raise (e : exn).
Arguments Ok {A} a.
Arguments Raise {A} e.

Definition res_bind {A B} (r : res A) (f : A -> res B) : res B :=
  match r with Ok a => f a | Raise e => Raise e end.

(** Truth value of a Python object, as [not x] tests it. *)
Definition truthy (v : json) : bool :=
  match v with
  | JNull => false
  | JBool b => b
  | JInt z => negb (z =? 0)
  | JStr s => negb (String.eqb s EmptyString)
  | JList l => match l with [] => false | _ => true end
  | JDict d => match d with [] => false | _ => true end
  end.

Fixpoint assoc (k : string) (d : list (string * json)) : option json :=
  match d with
  | [] => None
  | (k', v) :: d' => if String.eqb k k' then Some v else assoc k d'
  end.

(** [v[k]] for a string key [k]. *)
Definition getitem (v : json) (k : string) : res json :=
  match v with
  | JDict d => match assoc k d with Some x => Ok x | None => Raise KeyError end
  | _ => Raise TypeError
  end.

(** [d.get(k, default)]. *)
Definition dict_get (v : json) (k : string) (default : json) : res json :=
  match v with
  | JDict d => match assoc k d with Some x => Ok x | None => Ok default end
  | _ => Raise AttributeError
  end.

Definition chars (s : string) : list json :=
  map (fun c => JStr (String c EmptyString)) (list_ascii_of_string s).

(** [v[n]] for a non-negative integer [n]. *)
Definition getindex (v : json) (n : nat) : res json :=
  match v with
  | JList l =>
      match nth_error l n with Some x => Ok x | None => Raise IndexError end
  | JStr s =>
      match nth_error (chars s) n with
      | Some x => Ok x
      | None => Raise IndexError
      end
  | JDict _ => Raise KeyError
  | _ => Raise TypeError
  end.

(** [len(v)]. *)
Definition py_len (v : json) : res nat :=
  match v with
  | JList l => Ok (List.length l)
  | JStr s => Ok (String.length s)
  | JDict d => Ok (List.length d)
  | _ => Raise TypeError
  end.

(** The items a [for] loop over [v] visits. *)
Definition py_iter (v : json) : res (list json) :=
  match v with
  | JList l => Ok l
  | JStr s => Ok (chars s)
  | JDict d => Ok (map (fun kv => JStr (fst kv)) d)
  | _ => Raise TypeError
  end.

(** [l[-1]] on a list. *)
Definition last_item (l : list json) : res json :=
  match rev l with
  | x :: _ => Ok x
  | [] => Raise IndexError
  end.

(** [v != 'SUCCESS'] is decided by [v] being that very string. *)
Definition is_str (v : json) (s : string) : bool :=
  match v with
  | JStr s' => String.eqb s' s
  | _ => false
  end.

(** ** The outside world *)

Inductive meth : Type := GET | POST.

Record request : Type := mkRequest {
  rq_method : meth;
  rq_url : string;
  rq_auth : option (string * string)
}.

Record response : Type := mkResponse {
  status_code : Z;
  json_body : res json          (* what [response.json()] gives *)
}.

(** The requests sent so far, oldest first, and how often the clock was read. *)
Record world : Type := mkWorld {
  sent : list request;
  clock_reads : nat
}.

(** The collaborators the class does not implement: the transport, the wall
    clock (microseconds), and the two builtins [int] on a string and [str] on
    a value that is not already a string. *)
Record Env : Type := mkEnv {
  http : world -> request -> res response;
  now : world -> Z;
  int_of_str : string -> option Z;
  str_of : json -> string
}.

(** ** The object *)

Record St : Type := mkSt {
  jenkins_url : string;
  pipeline_name : string;
  auth : option (string * string);
  _pipeline : json;
  max_state_cache : Z;
  _state : list json;
  state_last_updated : Z;
  outside : world
}.

Definition set_pipeline (v : json) (s : St) : St :=
  mkSt (jenkins_url s) (pipeline_name s) (auth s) v (max_state_cache s)
       (_state s) (state_last_updated s) (outside s).

Definition set_state (v : list json) (s : St) : St :=
  mkSt (jenkins_url s) (pipeline_name s) (auth s) (_pipeline s)
       (max_state_cache s) v (state_last_updated s) (outside s).

Definition set_state_last_updated (t : Z) (s : St) : St :=
  mkSt (jenkins_url s) (pipeline_name s) (auth s) (_pipeline s)
       (max_state_cache s) (_state s) t (outside s).

Definition set_outside (w : world) (s : St) : St :=
  mkSt (jenkins_url s) (pipeline_name s) (auth s) (_pipeline s)
       (max_state_cache s) (_state s) (state_last_updated s) w.

(** The object after one more request has gone out. *)
Definition send (rq : request) (s : St) : St :=
  set_outside (mkWorld (sent (outside s) ++ [rq]) (clock_reads (outside s))) s.

(** The object after one more reading of the clock. *)
Definition tick (s : St) : St :=
  set_outside (mkWorld (sent (outside s)) (S (clock_reads (outside s)))) s.

(** ** The monad: state that survives an exception *)

Definition M (A : Type) : Type := St -> res A * St.

Definition ret {A} (a : A) : M A := fun s => (Ok a, s).

Definition raise {A} (e : exn) : M A := fun s => (Raise e, s).

Definition bind {A B} (m : M A) (f : A -> M B) : M B :=
  fun s => match m s with
           | (Ok a, s') => f a s'
           | (Raise e, s') => (Raise e, s')
           end.

Definition lift {A} (r : res A) : M A := fun s => (r, s).

Definition gets {A} (f : St -> A) : M A := fun s => (Ok (f s), s).

Definition modify (f : St -> St) : M unit := fun s => (Ok tt, f s).

(** [try: m except IndexError: h]. *)
Definition except_IndexError {A} (m : M A) (h : M A) : M A :=
  fun s => match m s with
           | (Raise IndexError, s') => h s'
           | r => r
           end.

Declare Scope py_scope.
Delimit Scope py_scope with py.
Notation "x <- m ;; k" := (bind m (fun x => k))
  (at level 100, m at next level, right associativity) : py_scope.
Notation "m ;;; k" := (bind m (fun _ => k))
  (at level 100, right associativity) : py_scope.
Open Scope py_scope.

(** Microseconds from the epoch to [datetime(1983,9,2)]. *)
Definition distant_past : Z := 4992 * 86400 * 1000000.

Definition last_char (s : string) : option ascii :=
  match rev (list_ascii_of_string s) with
  | c :: _ => Some c
  | [] => None
  end.

Definition drop_last (s : string) : string :=
  string_of_list_ascii (removelast (list_ascii_of_string s)).

(** [__init__]; [ttl] is [max_state_cache] in microseconds. *)
Definition init (url name : string) (a : option (string * string)) (ttl : Z)
    (w : world) : res St :=
  match last_char url with
  | None => Raise IndexError
  | Some c =>
      let url' := if Ascii.eqb c "/"%char then drop_last url else url in
      Ok (mkSt url' name a (JDict []) ttl [] distant_past w)
  end.

(** ** Worlds for the worked examples *)

(** A transport that answers by URL alone, and 404 for an unknown URL; a
    clock that shows [t0] and advances by [dt] with every reading. *)
Definition not_found : response := mkResponse 404 (Raise ValueError).

Definition page (v : json) : response := mkResponse 200 (Ok v).

Definition serve (pages : list (string * response)) (rq : request) : response :=
  match find (fun p => String.eqb (fst p) (rq_url rq)) pages with
  | Some p => snd p
  | None => not_found
  end.

Definition site (pages : list (string * response)) (t0 dt : Z) : Env :=
  mkEnv (fun _ rq => Ok (serve pages rq))
        (fun w => t0 + dt * Z.of_nat (clock_reads w))
        (fun _ => None)
        (fun _ => "None").

Definition job (u : string) : json := JDict [("url", JStr u)].

Definition build (t : Z) (r : string) : json :=
  JDict [("timestamp", JInt t); ("result", JStr r)].

Definition view (js : list json) : json :=
  JDict [("name", JStr "p"); ("jobs", JList js)].

Definition view_url : string := "http://ci/view/p/api/json".

(** A fresh client of [http://ci/], pipeline [p], ten seconds of TTL. *)
Definition fresh : St :=
  mkSt "http://ci" "p" None (JDict []) 10000000 [] distant_past (mkWorld [] 0).

Definition job_a : json := job "http://ci/job/a/".
Definition job_b : json := job "http://ci/job/b/".
Definition job_c : json := job "http://ci/job/c/".

(** Three jobs; the middle one last ran before the first one did. *)
Definition site_stale_middle : Env :=
  site [ (view_url, page (view [job_a; job_b; job_c]));
         ("http://ci/job/a/lastBuild/api/json", page (build 10 "SUCCESS"));
         ("http://ci/job/b/lastBuild/api/json", page (build 5 "SUCCESS"));
         ("http://ci/job/c/lastBuild/api/json", page (build 20 "SUCCESS")) ]
       1000000000000000 1.

(** Three jobs run in order, the third never built; the clock stands still. *)
Definition site_two_done : Env :=
  site [ (view_url, page (view [job_a; job_b; job_c]));
         ("http://ci/job/a/lastBuild/api/json", page (build 10 "SUCCESS"));
         ("http://ci/job/b/lastBuild/api/json", page (build 20 "SUCCESS")) ]
       1000000000000000 0.

(** The client once it has read the state of that site. *)
Definition two_done : St :=
  mkSt "http://ci" "p" None (view [job_a; job_b; job_c]) 10000000
       [build 10 "SUCCESS"; build 20 "SUCCESS"] 1000000000000000
       (mkWorld [ mkRequest GET view_url None;
                  mkRequest GET "http://ci/job/a/lastBuild/api/json" None;
                  mkRequest GET "http://ci/job/b/lastBuild/api/json" None;
                  mkRequest GET "http://ci/job/c/lastBuild/api/json" None ]
                1).

(** One job, never built. *)
Definition site_never_run : Env :=
  site [ (view_url, page (view [job_a])) ] 1000000000000000 1.

(** A view without jobs. *)
Definition site_no_jobs : Env :=
  site [ (view_url, page (view [])) ] 1000000000000000 1.

(** A view that answers with a JSON list instead of an object. *)
Definition site_list_view : Env :=
  site [ (view_url, page (JList [JInt 1])) ] 1000000000000000 1.

(** A view whose [jobs] is [null]. *)
Definition site_null_jobs : Env :=
  site [ (view_url, page (JDict [("name", JStr "p"); ("jobs", JNull)])) ]
       1000000000000000 1.

(** A view that answers with an empty object. *)
Definition site_empty_view : Env :=
  site [ (view_url, page (JDict [])) ] 1000000000000000 1.

(** * The class *)

Section Piper.

Variable E : Env.

(** [str(v)], as [{!s}] formats it. *)
Definition py_str (v : json) : string :=
  match v with
  | JStr s => s
  | _ => str_of E v
  end.

(** [int(v)]. *)
Definition py_int (v : json) : res Z :=
  match v with
  | JInt z => Ok z
  | JBool b => Ok (if b then 1 else 0)
  | JStr s =>
      match int_of_str E s with Some z => Ok z | None => Raise ValueError end
  | _ => Raise TypeError
  end.

Definition pipeline_url (s : St) : string :=
  (jenkins_url s ++ "/view/" ++ pipeline_name s ++ "/api/json")%string.

Definition get_last_build_url (job_url : json) : string :=
  (py_str job_url ++ "lastBuild/api/json")%string.

Definition get_job_build_url (job_url : json) : string :=
  (py_str job_url ++ "build")%string.

(** Sends one request: the world records it and the transport answers. *)
Definition run_request (url : string) (m : meth) : M response :=
  fun s =>
    let rq := mkRequest m url (auth s) in
    (http E (outside s) rq, send rq s).

(** [datetime.now()]. *)
Definition datetime_now : M Z :=
  fun s => (Ok (now E (outside s)), tick s).

Definition pipeline : M json :=
  p <- gets _pipeline ;;
  (if negb (truthy p) then
     u <- gets pipeline_url ;;
     response <- run_request u GET ;;
     body <- lift (json_body response) ;;
     modify (set_pipeline body)
   else ret tt) ;;;
  gets _pipeline.

Definition jobs : M json :=
  pipeline_data <- pipeline ;;
  lift (dict_get pipeline_data "jobs" (JList [])).

(** [not self._state or datetime.now() - self.state_last_updated >
    self.max_state_cache]: the clock is read only when the cache is not
    empty. *)
Definition is_state_stale : M bool :=
  st <- gets _state ;;
  match st with
  | [] => ret true
  | _ =>
      t <- datetime_now ;;
      last <- gets state_last_updated ;;
      ttl <- gets max_state_cache ;;
      ret (t - last >? ttl)
  end.

(** [int(x['timestamp'])]. *)
Definition timestamp_of (x : json) : res Z :=
  res_bind (getitem x "timestamp") py_int.

(** [int(job_data[-1]['timestamp'])], 0 when [job_data] is empty. *)
Definition last_job_time_of (job_data : list json) : M Z :=
  except_IndexError
    (lift (res_bind (last_item job_data) timestamp_of))
    (ret 0).

(** One turn of the [for] loop of [state]: [None] is [break], [Some] carries
    the accumulator into the next turn. *)
Definition visit (job : json) (job_data : list json) : M (option (list json)) :=
  u <- lift (getitem job "url") ;;
  response <- run_request (get_last_build_url u) GET ;;
  if (200 >? status_code response) || (status_code response >=? 400)
  then ret None
  else
    last_job_time <- last_job_time_of job_data ;;
    job' <- lift (json_body response) ;;
    t <- lift (timestamp_of job') ;;
    if t >=? last_job_time
    then ret (Some (job_data ++ [job']))
    else ret (Some job_data).

(** The loop over the jobs still to visit. *)
Fixpoint collect (todo : list json) (job_data : list json) : M (list json) :=
  match todo with
  | [] => ret job_data
  | job :: rest =>
      r <- visit job job_data ;;
      match r with
      | None => ret job_data
      | Some job_data' => collect rest job_data'
      end
  end.

Definition state : M (list json) :=
  stale <- is_state_stale ;;
  if negb stale then gets _state
  else
    js <- jobs ;;
    todo <- lift (py_iter js) ;;
    job_data <- collect todo [] ;;
    modify (set_state job_data) ;;;
    t <- datetime_now ;;
    modify (set_state_last_updated t) ;;;
    gets _state.

Definition latest_step : M json :=
  except_IndexError
    (st <- state ;; lift (last_item st))
    (ret JNull).

Definition is_complete : M bool :=
  st <- state ;;
  js <- jobs ;;
  n <- lift (py_len js) ;;
  if negb (Nat.eqb (List.length st) n) then ret false
  else
    l <- lift (last_item st) ;;
    r <- lift (getitem l "result") ;;
    if negb (is_str r "SUCCESS") then ret false else ret true.

Definition is_waiting_manual_trigger : M bool :=
  c <- is_complete ;;
  if negb c then
    l <- latest_step ;;
    r <- lift (getitem l "result") ;;
    ret (is_str r "SUCCESS")
  else ret false.

(** Falling off the end of the function returns [None]. *)
Definition next_step : M json :=
  c <- is_complete ;;
  if negb c then
    except_IndexError
      (js <- jobs ;;
       st <- state ;;
       lift (getindex js (List.length st)))
      (ret JNull)
  else ret JNull.

Definition build_job (job : json) : M response :=
  u <- lift (getitem job "url") ;;
  run_request (get_job_build_url u) POST.

Definition run : M response :=
  js <- jobs ;;
  job <- lift (getindex js 0) ;;
  build_job job.

Definition trigger_manual_step : M (option response) :=
  w <- is_waiting_manual_trigger ;;
  if w then
    job <- next_step ;;
    r <- build_job job ;;
    ret (Some r)
  else ret None.

(** ** Vocabulary of the statements *)

Definition last_build_request (s : St) (u : json) : request :=
  mkRequest GET (get_last_build_url u) (auth s).

(** The value [last_job_time] takes for an accumulator. *)
Inductive last_time : list json -> Z -> Prop :=
| last_time_nil : last_time [] 0
| last_time_item l x t :
    last_item l = Ok x -> timestamp_of x = Ok t -> last_time l t.

(** The outcomes of a turn that does not raise. *)
Inductive turn (job_data : list json) (resp : response)
  : option (list json) -> Prop :=
| turn_break :
    status_code resp < 200 \/ 400 <= status_code resp ->
    turn job_data resp None
| turn_append rec t lt :
    200 <= status_code resp < 400 ->
    json_body resp = Ok rec -> timestamp_of rec = Ok t ->
    last_time job_data lt -> lt <= t ->
    turn job_data resp (Some (job_data ++ [rec]))
| turn_drop rec t lt :
    200 <= status_code resp < 400 ->
    json_body resp = Ok rec -> timestamp_of rec = Ok t ->
    last_time job_data lt -> t < lt ->
    turn job_data resp (Some job_data).

(** [visited pre jd s jd' s']: the loop went through all of [pre] without
    breaking or raising, taking accumulator [jd] and object [s] to [jd'] and
    [s']. *)
Inductive visited : list json -> list json -> St -> list json -> St -> Prop :=
| visited_nil jd s : visited [] jd s jd s
| visited_cons job rest jd s jd1 s1 jd2 s2 :
    visit job jd s = (Ok (Some jd1), s1) ->
    visited rest jd1 s1 jd2 s2 ->
    visited (job :: rest) jd s jd2 s2.

(** The [url] of a job, [None] when it has none. *)
Definition url_of (job : json) : json :=
  match getitem job "url" with
  | Ok u => u
  | Raise _ => JNull
  end.

Definition requests_for (s : St) (js : list json) : list request :=
  map (fun job => last_build_request s (url_of job)) js.

(** The object once the last build of each of [js] has been asked for. *)
Definition asked (s : St) (js : list json) : St :=
  set_outside (mkWorld (sent (outside s) ++ requests_for s js)
                       (clock_reads (outside s))) s.

(** What the server answers for the [k]-th job of [todo] in a cycle that
    starts from [s]: the body of the response to its last-build request,
    sent after those of the [k] jobs before it. *)
Definition last_build_record (s : St) (todo : list json) (k : nat)
    : option json :=
  match nth_error todo k with
  | Some job =>
      match getitem job "url" with
      | Ok u =>
          match http E (outside (asked s (firstn k todo)))
                     (last_build_request s u) with
          | Ok resp =>
              match json_body resp with
              | Ok rec => Some rec
              | Raise _ => None
              end
          | Raise _ => None
          end
      | Raise _ => None
      end
  | None => None
  end.

(** The timestamps of the jobs' records never go down along the job order. *)
Definition nondecreasing_records (s : St) (todo : list json) : Prop :=
  forall k1 k2 r1 r2 t1 t2,
    (k1 < k2)%nat ->
    last_build_record s todo k1 = Some r1 ->
    last_build_record s todo k2 = Some r2 ->
    timestamp_of r1 = Ok t1 -> timestamp_of r2 = Ok t2 ->
    t1 <= t2.

(** No record has a timestamp below [lo]. *)
Definition records_at_least (lo : Z) (s : St) (todo : list json) : Prop :=
  forall k r t,
    last_build_record s todo k = Some r -> timestamp_of r = Ok t -> lo <= t.

(** [a] and [b] are neighbours in [l], [a] first. *)
Definition adjacent (l : list json) (a b : json) : Prop :=
  exists l1 l2, l = l1 ++ a :: b :: l2.

(** Each entry's timestamp is at least that of the entry before it. *)
Definition ascending (l : list json) : Prop :=
  forall a b, adjacent l a b ->
    exists ta tb, timestamp_of a = Ok ta /\ timestamp_of b = Ok tb /\ ta <= tb.

(** The object after a rebuild that collected [jd] and left [s2]. *)
Definition stored (jd : list json) (s2 : St) : St :=
  set_state_last_updated (now E (outside s2)) (tick (set_state jd s2)).

(** The calls a user of the object can make over its lifetime. *)
Inductive call : Type :=
| CallPipeline | CallJobs | CallIsStateStale | CallState | CallLatestStep
| CallIsComplete | CallIsWaitingManualTrigger | CallNextStep
| CallBuildJob (job : json) | CallRun | CallTriggerManualStep.

(** The object after one call, returned or raised. *)
Definition after (c : call) (s : St) : St :=
  match c with
  | CallPipeline => snd (pipeline s)
  | CallJobs => snd (jobs s)
  | CallIsStateStale => snd (is_state_stale s)
  | CallState => snd (state s)
  | CallLatestStep => snd (latest_step s)
  | CallIsComplete => snd (is_complete s)
  | CallIsWaitingManualTrigger => snd (is_waiting_manual_trigger s)
  | CallNextStep => snd (next_step s)
  | CallBuildJob job => snd (build_job job s)
  | CallRun => snd (run s)
  | CallTriggerManualStep => snd (trigger_manual_step s)
  end.

Definition after_all (cs : list call) (s : St) : St :=
  fold_left (fun s c => after c s) cs s.

(** [preserves P m]: running [m] from an object satisfying [P] leaves an
    object satisfying [P], whether [m] returns or raises. *)
Definition preserves {A} (P : St -> Prop) (m : M A) : Prop :=
  forall s r s', P s -> m s = (r, s') -> P s'.

Definition pipeline_request (s : St) : request :=
  mkRequest GET (pipeline_url s) (auth s).

(** Both caches answer: the definition cache holds the job list [js], the
    state cache holds the non-empty [st], and the clock stays within the TTL
    however often it is read, so that no read refreshes anything. *)
Definition frozen (s : St) (js st : list json) : Prop :=
  truthy (_pipeline s) = true /\
  dict_get (_pipeline s) "jobs" (JList []) = Ok (JList js) /\
  _state s = st /\ st <> [] /\
  forall n, (clock_reads (outside s) <= n)%nat ->
    now E (mkWorld (sent (outside s)) n) - state_last_updated s
    <= max_state_cache s.

(** The object has sent only GETs since its log read [base]. *)
Definition only_gets_since (base : list request) (s : St) : Prop :=
  exists new, sent (outside s) = base ++ new /\
              Forall (fun rq => rq_method rq = GET) new.

(** ** Vocabulary of the further statements *)

(** Every entry has a timestamp that [int] reads. *)
Definition stamped (l : list json) : Prop :=
  Forall (fun x => exists t, timestamp_of x = Ok t) l.

(** The cached state is empty, or the definition cache holds a job list at
    least as long as it. *)
Definition within_jobs (s : St) : Prop :=
  _state s = [] \/
  (truthy (_pipeline s) = true /\
   exists v n, dict_get (_pipeline s) "jobs" (JList []) = Ok v /\
               py_len v = Ok n /\ (List.length (_state s) <= n)%nat).

(** The calls that are meant to read only. *)
Definition is_read (c : call) : bool :=
  match c with
  | CallBuildJob _ | CallRun | CallTriggerManualStep => false
  | _ => true
  end.

(** What [__init__] was given and nothing later assigns. *)
Definition settings (s : St)
    : string * string * option (string * string) * Z :=
  (jenkins_url s, pipeline_name s, auth s, max_state_cache s).

Definition build_request (s : St) (u : json) : request :=
  mkRequest POST (get_job_build_url u) (auth s).

(** The object's log is [base] followed by requests that all satisfy [ok]. *)
Definition sent_since (ok : request -> Prop) (base : list request) (s : St)
    : Prop :=
  exists new, sent (outside s) = base ++ new /\ Forall ok new.

(** * Facts *)

Lemma bind_ok {A B} (m : M A) (f : A -> M B) s a s' :
  m s = (Ok a, s') -> bind m f s = f a s'.
Proof. intros H. unfold bind. rewrite H. reflexivity. Qed.

Lemma bind_raise {A B} (m : M A) (f : A -> M B) s e s' :
  m s = (Raise e, s') -> bind m f s = (Raise e, s').
Proof. intros H. unfold bind. rewrite H. reflexivity. Qed.

Lemma lift_ok {A} (x : res A) a s : x = Ok a -> lift x s = (Ok a, s).
Proof. intros ->. reflexivity. Qed.

Ltac run_monad :=
  unfold bind, lift, ret, gets, modify, raise, except_IndexError in *;
  simpl in *.

(** ** The loop of [state] *)

Lemma out_of_range_true (c : Z) :
  c < 200 \/ 400 <= c -> (200 >? c) || (c >=? 400) = true.
Proof.
  intros [H | H]; apply orb_true_iff; [left | right].
  - apply Z.gtb_lt; lia.
  - apply Z.geb_le; lia.
Qed.

Lemma out_of_range_false (c : Z) :
  200 <= c < 400 -> (200 >? c) || (c >=? 400) = false.
Proof.
  intros H. apply orb_false_iff. split.
  - rewrite Z.gtb_ltb. apply Z.ltb_ge. lia.
  - rewrite Z.geb_leb. apply Z.leb_gt. lia.
Qed.

Lemma visit_break job job_data s u resp :
  getitem job "url" = Ok u ->
  http E (outside s) (last_build_request s u) = Ok resp ->
  status_code resp < 200 \/ 400 <= status_code resp ->
  visit job job_data s = (Ok None, send (last_build_request s u) s).
Proof.
  intros Hu Hr Hc. unfold visit, run_request. run_monad.
  rewrite Hu. fold (last_build_request s u). rewrite Hr.
  rewrite (out_of_range_true _ Hc). reflexivity.
Qed.

(** [C6] A job whose last-build response has a status outside [200, 400)
    ends the collection loop at once: the accumulator is returned as it
    stands, no exception is raised, and the only request that went out is the
    one for that job, whatever jobs remain. *)
Theorem collect_stops_on_status_out_of_range job rest job_data s u resp :
  getitem job "url" = Ok u ->
  http E (outside s) (last_build_request s u) = Ok resp ->
  status_code resp < 200 \/ 400 <= status_code resp ->
  collect (job :: rest) job_data s
  = (Ok job_data, send (last_build_request s u) s).
Proof.
  intros Hu Hr Hc. simpl. unfold bind at 1.
  rewrite (visit_break job job_data s u resp Hu Hr Hc). reflexivity.
Qed.

(** *** What one turn of the loop can do *)

Lemma last_item_snoc (l : list json) (x : json) : last_item (l ++ [x]) = Ok x.
Proof. unfold last_item. rewrite rev_app_distr. reflexivity. Qed.

Lemma last_item_nil_iff (l : list json) :
  last_item l = Raise IndexError <-> l = [].
Proof.
  split.
  - destruct l as [| a l] using rev_ind; [reflexivity |].
    rewrite last_item_snoc. discriminate.
  - intros ->. reflexivity.
Qed.

Lemma last_item_raises (l : list json) e :
  last_item l = Raise e -> l = [] /\ e = IndexError.
Proof.
  destruct l as [| a l] using rev_ind.
  - unfold last_item; simpl. intros H; inversion H; auto.
  - rewrite last_item_snoc. discriminate.
Qed.

Lemma timestamp_of_not_IndexError (x : json) :
  timestamp_of x <> Raise IndexError.
Proof.
  unfold timestamp_of, getitem, py_int, res_bind.
  destruct x; try discriminate.
  destruct (assoc "timestamp" d) as [v |]; try discriminate.
  destruct v; try discriminate.
  destruct (int_of_str E s); discriminate.
Qed.

Lemma last_job_time_of_ok job_data s t s' :
  last_job_time_of job_data s = (Ok t, s') ->
  s' = s /\ last_time job_data t.
Proof.
  unfold last_job_time_of. run_monad.
  destruct (last_item job_data) as [x | e] eqn:Hl; simpl.
  - destruct (timestamp_of x) as [tx | e] eqn:Ht.
    + intros H; inversion H; subst. split; [reflexivity |].
      eapply last_time_item; eauto.
    + destruct e; intros H; inversion H.
      exfalso. eapply timestamp_of_not_IndexError; eauto.
  - destruct (last_item_raises _ _ Hl) as [-> ->].
    intros H; inversion H; subst. split; [reflexivity | constructor].
Qed.

Lemma last_job_time_of_last_time job_data lt s :
  last_time job_data lt -> last_job_time_of job_data s = (Ok lt, s).
Proof.
  intros H. unfold last_job_time_of. run_monad.
  inversion H as [Hnil | l x t' Hl Hx]; subst.
  - reflexivity.
  - rewrite Hl. simpl. rewrite Hx. reflexivity.
Qed.

Lemma run_request_ok s u resp :
  http E (outside s) (last_build_request s u) = Ok resp ->
  run_request (get_last_build_url u) GET s
  = (Ok resp, send (last_build_request s u) s).
Proof.
  intros H. unfold run_request. fold (last_build_request s u).
  rewrite H. reflexivity.
Qed.

Lemma last_job_time_of_state job_data s r s' :
  last_job_time_of job_data s = (r, s') -> s' = s.
Proof.
  unfold last_job_time_of. run_monad.
  destruct (res_bind (last_item job_data) timestamp_of) as [t | e].
  - intros H; inversion H; reflexivity.
  - destruct e; intros H; inversion H; reflexivity.
Qed.

Lemma visit_inv job job_data s r s' :
  visit job job_data s = (Ok r, s') ->
  exists u resp,
    getitem job "url" = Ok u /\
    http E (outside s) (last_build_request s u) = Ok resp /\
    s' = send (last_build_request s u) s /\
    turn job_data resp r.
Proof.
  unfold visit, run_request. run_monad.
  destruct (getitem job "url") as [u | e]; [| discriminate].
  fold (last_build_request s u).
  destruct (http E (outside s) (last_build_request s u)) as [resp | e] eqn:Hr;
    [| discriminate].
  intros H. exists u, resp. split; [reflexivity |]. split; [exact Hr |].
  destruct ((200 >? status_code resp) || (status_code resp >=? 400)) eqn:Hc.
  - inversion H; subst. split; [reflexivity |].
    apply turn_break. apply orb_true_iff in Hc as [Hc | Hc].
    + left. apply Z.gtb_lt in Hc. lia.
    + right. apply Z.geb_le in Hc. lia.
  - assert (Hin : 200 <= status_code resp < 400).
    { apply orb_false_iff in Hc as [H1 H2].
      rewrite Z.gtb_ltb in H1. apply Z.ltb_ge in H1.
      rewrite Z.geb_leb in H2. apply Z.leb_gt in H2. lia. }
    destruct (last_job_time_of job_data (send (last_build_request s u) s))
      as [[lt | e] s1] eqn:Hlt; [| discriminate].
    apply last_job_time_of_ok in Hlt as [-> Hlast].
    destruct (json_body resp) as [rec | e] eqn:Hb; [| discriminate].
    destruct (timestamp_of rec) as [t | e] eqn:Ht; [| discriminate].
    destruct (t >=? lt) eqn:Hge; inversion H; subst;
      (split; [reflexivity |]).
    + eapply turn_append; eauto. apply Z.geb_le in Hge. lia.
    + eapply turn_drop; eauto. rewrite Z.geb_leb in Hge.
      apply Z.leb_gt in Hge. lia.
Qed.

(** Whatever a turn does, the object changes at most by one request sent. *)
Lemma visit_state job job_data s r s' :
  visit job job_data s = (r, s') ->
  s' = s \/ exists u, getitem job "url" = Ok u /\
                      s' = send (last_build_request s u) s.
Proof.
  unfold visit, run_request. run_monad.
  destruct (getitem job "url") as [u | e].
  2:{ intros H; inversion H; auto. }
  fold (last_build_request s u).
  intros H. right. exists u. split; [reflexivity |].
  destruct (http E (outside s) (last_build_request s u)) as [resp | e].
  2:{ inversion H; reflexivity. }
  destruct ((200 >? status_code resp) || (status_code resp >=? 400)).
  { inversion H; reflexivity. }
  destruct (last_job_time_of job_data (send (last_build_request s u) s))
    as [[lt | e] s1] eqn:Hlt;
    apply last_job_time_of_state in Hlt; subst s1.
  2:{ inversion H; reflexivity. }
  destruct (json_body resp) as [rec | e].
  2:{ inversion H; reflexivity. }
  destruct (timestamp_of rec) as [t | e].
  2:{ inversion H; reflexivity. }
  destruct (t >=? lt); inversion H; reflexivity.
Qed.

(** *** Runs of the loop *)

Lemma collect_after_visited pre rest jd s jd1 s1 :
  visited pre jd s jd1 s1 ->
  collect (pre ++ rest) jd s = collect rest jd1 s1.
Proof.
  induction 1 as [| job pre' jd s jd1 s1 jd2 s2 Hv _ IH]; [reflexivity |].
  simpl. unfold bind at 1. rewrite Hv. exact IH.
Qed.

(** A loop that returns either went through every job or broke at one. *)
Lemma collect_inv todo : forall jd s st s',
  collect todo jd s = (Ok st, s') ->
  visited todo jd s st s' \/
  exists pre job post s1,
    todo = pre ++ job :: post /\ visited pre jd s st s1 /\
    visit job st s1 = (Ok None, s').
Proof.
  induction todo as [| job rest IH]; intros jd s st s' H.
  - simpl in H. run_monad. inversion H; subst. left. constructor.
  - simpl in H. unfold bind at 1 in H.
    destruct (visit job jd s) as [[[jd1 |] | e] s1] eqn:Hv.
    + apply IH in H as [Hall | (pre & j & post & s2 & -> & Hpre & Hbr)].
      * left. econstructor; eauto.
      * right. exists (job :: pre), j, post, s2.
        split; [reflexivity |]. split; [econstructor; eauto | exact Hbr].
    + run_monad. inversion H; subst. right.
      exists [], job, rest, s. split; [reflexivity |].
      split; [constructor | exact Hv].
    + discriminate.
Qed.

Lemma asked_nil s : asked s [] = s.
Proof.
  destruct s as [a b c d e f g [l n]]. unfold asked, set_outside; simpl.
  rewrite app_nil_r. reflexivity.
Qed.

Lemma asked_cons s job u js :
  getitem job "url" = Ok u ->
  asked s (job :: js) = asked (send (last_build_request s u) s) js.
Proof.
  intros Hu. unfold asked, send, set_outside, requests_for, url_of; simpl.
  rewrite Hu. rewrite <- app_assoc. reflexivity.
Qed.

Lemma visited_state pre : forall jd s jd1 s1,
  visited pre jd s jd1 s1 -> s1 = asked s pre.
Proof.
  induction pre as [| job pre IH]; intros jd s jd1 s1 H; inversion H; subst.
  - symmetry. apply asked_nil.
  - match goal with Hv : visit _ _ _ = _ |- _ =>
      apply visit_inv in Hv as (u & resp & Hu & _ & -> & _) end.
    rewrite (asked_cons s job u pre Hu). eapply IH; eauto.
Qed.

Lemma visited_length pre : forall jd s jd1 s1,
  visited pre jd s jd1 s1 ->
  (List.length jd1 <= List.length jd + List.length pre)%nat.
Proof.
  induction pre as [| job pre IH]; intros jd s jd1 s1 H; inversion H; subst.
  - simpl. lia.
  - match goal with Hv : visit _ _ _ = _ |- _ =>
      apply visit_inv in Hv as (u & resp & _ & _ & _ & Ht) end.
    match goal with Hr : visited pre _ _ _ _ |- _ => apply IH in Hr end.
    inversion Ht; subst; simpl; try rewrite length_app in *; simpl in *; lia.
Qed.

Lemma last_build_record_first s job rest u resp rec :
  getitem job "url" = Ok u ->
  http E (outside s) (last_build_request s u) = Ok resp ->
  json_body resp = Ok rec ->
  last_build_record s (job :: rest) 0 = Some rec.
Proof.
  intros Hu Hr Hb. unfold last_build_record. cbn [nth_error firstn].
  rewrite Hu, asked_nil, Hr, Hb. reflexivity.
Qed.

Lemma last_build_record_next s job rest u k :
  getitem job "url" = Ok u ->
  last_build_record s (job :: rest) (S k)
  = last_build_record (send (last_build_request s u) s) rest k.
Proof.
  intros Hu. unfold last_build_record. cbn [nth_error firstn].
  destruct (nth_error rest k) as [j |]; [| reflexivity].
  rewrite (asked_cons s job u _ Hu). reflexivity.
Qed.

(** *** Which records the loop keeps *)

Lemma StronglySorted_lt_map_S (ks : list nat) :
  StronglySorted lt ks -> StronglySorted lt (map S ks).
Proof.
  induction 1 as [| k ks Hs IH Hk]; simpl; constructor; auto.
  apply Forall_map. eapply Forall_impl; [| exact Hk]. simpl. lia.
Qed.

Lemma records_shift s job rest u (ks : list nat) (recs : list json) :
  getitem job "url" = Ok u ->
  Forall2 (fun k rec =>
             last_build_record (send (last_build_request s u) s) rest k
             = Some rec) ks recs ->
  Forall2 (fun k rec => last_build_record s (job :: rest) k = Some rec)
          (map S ks) recs.
Proof.
  intros Hu. induction 1; simpl; constructor; auto.
  rewrite (last_build_record_next s job rest u _ Hu). assumption.
Qed.

(** The records kept are those of jobs at strictly increasing positions. *)
Lemma collect_picks todo : forall jd s st s',
  collect todo jd s = (Ok st, s') ->
  exists ks recs,
    st = jd ++ recs /\ StronglySorted lt ks /\
    Forall2 (fun k rec => last_build_record s todo k = Some rec) ks recs.
Proof.
  induction todo as [| job rest IH]; intros jd s st s' H.
  - simpl in H. run_monad. inversion H; subst.
    exists [], []. rewrite app_nil_r. repeat split; constructor.
  - simpl in H. unfold bind at 1 in H.
    destruct (visit job jd s) as [[r | e] s1] eqn:Hv; [| discriminate].
    apply visit_inv in Hv as (u & resp & Hu & Hr & -> & Ht).
    inversion Ht; subst.
    + run_monad. inversion H; subst.
      exists [], []. rewrite app_nil_r. repeat split; constructor.
    + apply IH in H as (ks & recs & -> & Hs & Hf).
      exists (0%nat :: map S ks), (rec :: recs).
      rewrite <- app_assoc. split; [reflexivity |]. split.
      * constructor; [apply StronglySorted_lt_map_S; exact Hs |].
        apply Forall_map. apply Forall_forall. intros; lia.
      * constructor; [| eapply records_shift; eauto].
        eapply last_build_record_first; eauto.
    + apply IH in H as (ks & recs & -> & Hs & Hf).
      exists (map S ks), recs. split; [reflexivity |].
      split; [apply StronglySorted_lt_map_S; exact Hs |].
      eapply records_shift; eauto.
Qed.

Lemma last_time_snoc jd rec t lt :
  timestamp_of rec = Ok t -> last_time (jd ++ [rec]) lt -> lt = t.
Proof.
  intros Ht H. inversion H as [Hnil | l x t' Hl Hx]; subst.
  - destruct jd; discriminate.
  - rewrite last_item_snoc in Hl. inversion Hl; subst.
    rewrite Ht in Hx. inversion Hx; reflexivity.
Qed.

(** With such timestamps nothing is dropped: the records kept are those of
    the first jobs, one for one. *)
Lemma collect_prefix todo : forall jd s st s',
  (forall lt, last_time jd lt -> records_at_least lt s todo) ->
  nondecreasing_records s todo ->
  collect todo jd s = (Ok st, s') ->
  exists recs,
    st = jd ++ recs /\
    forall i rec, nth_error recs i = Some rec ->
                  last_build_record s todo i = Some rec.
Proof.
  induction todo as [| job rest IH]; intros jd s st s' Hlo Hmono H.
  - simpl in H. run_monad. inversion H; subst.
    exists []. rewrite app_nil_r. split; [reflexivity |].
    intros [| i] rec Hi; discriminate.
  - simpl in H. unfold bind at 1 in H.
    destruct (visit job jd s) as [[r | e] s1] eqn:Hv; [| discriminate].
    apply visit_inv in Hv as (u & resp & Hu & Hr & -> & Ht).
    inversion Ht as [Hc | rec t lt Hc Hb Hts Hlast Hle
                     | rec t lt Hc Hb Hts Hlast Hlt]; subst.
    + run_monad. inversion H; subst.
      exists []. rewrite app_nil_r. split; [reflexivity |].
      intros [| i] rec Hi; discriminate.
    + pose proof (last_build_record_first s job rest u resp rec Hu Hr Hb)
        as H0.
      apply IH in H as (recs & -> & Hrecs).
      * exists (rec :: recs). rewrite <- app_assoc.
        split; [reflexivity |].
        intros [| i] r Hi; simpl in Hi.
        -- inversion Hi; subst. exact H0.
        -- rewrite (last_build_record_next s job rest u _ Hu). auto.
      * intros lt' Hlt' k r tr Hk Htr.
        rewrite (last_time_snoc _ _ _ _ Hts Hlt').
        rewrite <- (last_build_record_next s job rest u _ Hu) in Hk.
        apply (Hmono 0%nat (S k) rec r t tr); auto. lia.
      * intros k1 k2 r1 r2 t1 t2 Hk H1 H2 Ht1 Ht2.
        rewrite <- (last_build_record_next s job rest u _ Hu) in H1.
        rewrite <- (last_build_record_next s job rest u _ Hu) in H2.
        apply (Hmono (S k1) (S k2) r1 r2 t1 t2); auto. lia.
    + pose proof (last_build_record_first s job rest u resp rec Hu Hr Hb)
        as H0.
      pose proof (Hlo lt Hlast 0%nat rec t H0 Hts). lia.
Qed.

(** *** The timestamps of the records kept *)

Lemma ascending_nil : ascending [].
Proof. intros a b (l1 & l2 & H). destruct l1; discriminate. Qed.

Lemma ascending_snoc jd rec t lt :
  ascending jd -> last_time jd lt -> timestamp_of rec = Ok t -> lt <= t ->
  ascending (jd ++ [rec]).
Proof.
  intros Hjd Hlast Ht Hle a b (l1 & l2 & H).
  destruct l2 as [| y l2 _] using rev_ind.
  - change (l1 ++ [a; b]) with (l1 ++ [a] ++ [b]) in H.
    rewrite app_assoc in H. apply app_inj_tail in H as [-> ->].
    inversion Hlast as [Hnil | l x t' Hl Hx]; subst.
    + destruct l1; discriminate.
    + rewrite last_item_snoc in Hl. inversion Hl; subst.
      exists lt, t. auto.
  - change (l1 ++ a :: b :: l2 ++ [y]) with (l1 ++ (a :: b :: l2) ++ [y]) in H.
    rewrite app_assoc in H. apply app_inj_tail in H as [-> _].
    apply Hjd. exists l1, l2. reflexivity.
Qed.

Lemma collect_ascending todo : forall jd s st s',
  ascending jd -> collect todo jd s = (Ok st, s') -> ascending st.
Proof.
  induction todo as [| job rest IH]; intros jd s st s' Hjd H.
  - simpl in H. run_monad. inversion H; subst. exact Hjd.
  - simpl in H. unfold bind at 1 in H.
    destruct (visit job jd s) as [[r | e] s1] eqn:Hv; [| discriminate].
    apply visit_inv in Hv as (u & resp & Hu & Hr & -> & Ht).
    inversion Ht; subst.
    + run_monad. inversion H; subst. exact Hjd.
    + eapply IH; [| exact H]. eapply ascending_snoc; eauto.
    + eapply IH; eauto.
Qed.

(** ** The state cache *)

Lemma is_state_stale_empty s :
  _state s = [] -> is_state_stale s = (Ok true, s).
Proof. intros H. unfold is_state_stale. run_monad. rewrite H. reflexivity. Qed.

Lemma is_state_stale_nonempty s :
  _state s <> [] ->
  is_state_stale s
  = (Ok (now E (outside s) - state_last_updated s >? max_state_cache s),
     tick s).
Proof.
  intros H. unfold is_state_stale, datetime_now. run_monad.
  destruct (_state s); [congruence | reflexivity].
Qed.

Lemma state_rebuild s s0 js s1 todo :
  is_state_stale s = (Ok true, s0) ->
  jobs s0 = (Ok js, s1) ->
  py_iter js = Ok todo ->
  state s = match collect todo [] s1 with
            | (Ok jd, s2) => (Ok jd, stored jd s2)
            | (Raise e, s2) => (Raise e, s2)
            end.
Proof.
  intros Hs Hj Hi. unfold state. rewrite (bind_ok _ _ _ _ _ Hs).
  change (negb true) with false. cbv iota.
  rewrite (bind_ok _ _ _ _ _ Hj).
  rewrite (bind_ok (lift (py_iter js)) _ s1 todo s1)
    by (unfold lift; rewrite Hi; reflexivity).
  unfold bind at 1.
  destruct (collect todo [] s1) as [[jd | e] s2]; reflexivity.
Qed.

Lemma state_cached s :
  _state s <> [] ->
  now E (outside s) - state_last_updated s <= max_state_cache s ->
  state s = (Ok (_state s), tick s).
Proof.
  intros Hne Hd. unfold state. unfold bind at 1.
  rewrite (is_state_stale_nonempty s Hne).
  replace (now E (outside s) - state_last_updated s >? max_state_cache s)
    with false.
  - reflexivity.
  - symmetry. rewrite Z.gtb_ltb. apply Z.ltb_ge. lia.
Qed.

Lemma length_chars (s : string) : List.length (chars s) = String.length s.
Proof.
  unfold chars. rewrite length_map.
  induction s; simpl; congruence.
Qed.

Lemma py_iter_len js todo :
  py_iter js = Ok todo -> py_len js = Ok (List.length todo).
Proof.
  destruct js; simpl; intros H; inversion H; subst.
  - rewrite length_chars. reflexivity.
  - reflexivity.
  - rewrite length_map. reflexivity.
Qed.

Lemma collect_length todo jd s st s' :
  collect todo jd s = (Ok st, s') ->
  (List.length st <= List.length jd + List.length todo)%nat.
Proof.
  intros H.
  apply collect_inv in H as [Hall | (pre & job & post & s1 & -> & Hpre & _)].
  - eapply visited_length; eauto.
  - apply visited_length in Hpre. rewrite length_app. lia.
Qed.

Lemma visited_collect pre jd s jd1 s1 :
  visited pre jd s jd1 s1 -> collect pre jd s = (Ok jd1, s1).
Proof.
  intros H. pose proof (collect_after_visited pre [] jd s jd1 s1 H) as Hc.
  rewrite app_nil_r in Hc. exact Hc.
Qed.

Lemma last_build_record_lt s todo k rec :
  last_build_record s todo k = Some rec -> (k < List.length todo)%nat.
Proof.
  unfold last_build_record. intros H. apply nth_error_Some.
  destruct (nth_error todo k); [discriminate | discriminate H].
Qed.

Lemma last_build_record_app s pre post k :
  (k < List.length pre)%nat ->
  last_build_record s (pre ++ post) k = last_build_record s pre k.
Proof.
  intros Hk. unfold last_build_record.
  rewrite nth_error_app1 by exact Hk.
  rewrite firstn_app.
  replace (k - List.length pre)%nat with 0%nat by lia.
  simpl. rewrite app_nil_r. reflexivity.
Qed.

Lemma requests_for_snoc s pre job u :
  getitem job "url" = Ok u ->
  requests_for s (pre ++ [job])
  = requests_for s pre ++ [last_build_request s u].
Proof.
  intros Hu. unfold requests_for. rewrite map_app. simpl.
  unfold url_of. rewrite Hu. reflexivity.
Qed.

(** [C5] A rebuild never returns more entries than there are jobs.  And when
    the jobs [pre] were gone through without a break and the next job is
    answered with a status outside [200, 400), the state returned is the
    accumulator reached over [pre]: it has at most [length pre] entries, every
    entry is the record of a job of [pre], and the requests sent are those
    for [pre] and the breaking job, none for the jobs [post] after it. *)
Theorem state_is_cut_at_first_stop s s0 js s1 todo :
  is_state_stale s = (Ok true, s0) ->
  jobs s0 = (Ok js, s1) ->
  py_iter js = Ok todo ->
  (forall st s', state s = (Ok st, s') ->
     py_len js = Ok (List.length todo) /\
     (List.length st <= List.length todo)%nat) /\
  (forall pre job post jd s2 u resp,
     todo = pre ++ job :: post ->
     visited pre [] s1 jd s2 ->
     getitem job "url" = Ok u ->
     http E (outside s2) (last_build_request s2 u) = Ok resp ->
     status_code resp < 200 \/ 400 <= status_code resp ->
     state s = (Ok jd, stored jd (send (last_build_request s2 u) s2)) /\
     (List.length jd <= List.length pre)%nat /\
     sent (outside (send (last_build_request s2 u) s2))
     = sent (outside s1) ++ requests_for s1 (pre ++ [job]) /\
     Forall (fun rec => exists k, (k < List.length pre)%nat /\
                                  last_build_record s1 todo k = Some rec) jd).
Proof.
  intros Hs Hj Hi. split.
  - intros st s' H. rewrite (state_rebuild s s0 js s1 todo Hs Hj Hi) in H.
    split; [apply py_iter_len; exact Hi |].
    destruct (collect todo [] s1) as [[jd | e] s2] eqn:Hc; [| discriminate].
    inversion H; subst. apply collect_length in Hc. simpl in Hc. exact Hc.
  - intros pre job post jd s2 u resp -> Hpre Hu Hr Hout.
    pose proof (visit_break job jd s2 u resp Hu Hr Hout) as Hbr.
    assert (Hc : collect (pre ++ job :: post) [] s1
                 = (Ok jd, send (last_build_request s2 u) s2)).
    { rewrite (collect_after_visited _ _ _ _ _ _ Hpre). simpl.
      rewrite (bind_ok _ _ _ _ _ Hbr). reflexivity. }
    split; [| split; [| split]].
    + rewrite (state_rebuild s s0 js s1 _ Hs Hj Hi), Hc. reflexivity.
    + apply visited_length in Hpre. simpl in Hpre. exact Hpre.
    + pose proof (visited_state _ _ _ _ _ Hpre) as ->.
      rewrite (requests_for_snoc s1 pre job u Hu). simpl.
      rewrite app_assoc. reflexivity.
    + apply visited_collect in Hpre.
      apply collect_picks in Hpre as (ks & recs & -> & _ & Hf). simpl.
      clear Hc Hbr Hr. induction Hf as [| k rec ks recs Hk Hf IH]; constructor.
      * exists k. pose proof (last_build_record_lt _ _ _ _ Hk) as Hlt.
        split; [exact Hlt |].
        rewrite last_build_record_app by exact Hlt. exact Hk.
      * exact IH.
Qed.

(** [C1, amended] The state a rebuild returns holds the records of jobs at
    strictly increasing positions of the job order, so the [i]-th entry
    belongs to a job of index at least [i]; it is the record of the [i]-th
    job itself when the timestamps of the jobs' records are non-negative and
    never go down along the job order, so that the timestamp guard drops
    nothing. *)
Theorem state_records_follow_job_order s s0 js s1 todo st s' :
  is_state_stale s = (Ok true, s0) ->
  jobs s0 = (Ok js, s1) ->
  py_iter js = Ok todo ->
  state s = (Ok st, s') ->
  (exists ks,
     StronglySorted lt ks /\
     Forall2 (fun k rec => last_build_record s1 todo k = Some rec) ks st) /\
  (records_at_least 0 s1 todo -> nondecreasing_records s1 todo ->
   forall i rec, nth_error st i = Some rec ->
                 last_build_record s1 todo i = Some rec).
Proof.
  intros Hs Hj Hi H. rewrite (state_rebuild s s0 js s1 todo Hs Hj Hi) in H.
  destruct (collect todo [] s1) as [[jd | e] s2] eqn:Hc; [| discriminate].
  inversion H; subst. split.
  - apply collect_picks in Hc as (ks & recs & -> & Hsorted & Hf).
    exists ks. split; assumption.
  - intros Hlo Hmono.
    apply collect_prefix in Hc as (recs & -> & Hrecs); auto.
    intros lt Hlt. inversion Hlt as [Hnil | l x t Hl Hx]; subst.
    + exact Hlo.
    + discriminate.
Qed.

(** [C3, amended] When the cached state is not empty and the clock shows a
    duration below the TTL since the last state fetch, [state] returns the
    cached sequence itself, sends no request, and leaves both caches as they
    were: only the clock has been read. *)
Theorem state_within_ttl_is_cached s :
  _state s <> [] ->
  now E (outside s) - state_last_updated s < max_state_cache s ->
  state s = (Ok (_state s), tick s) /\
  sent (outside (snd (state s))) = sent (outside s) /\
  _state (snd (state s)) = _state s.
Proof.
  intros Hne Hd.
  assert (H : state s = (Ok (_state s), tick s)).
  { apply state_cached; [exact Hne | lia]. }
  rewrite H. repeat split.
Qed.

(** ** Completion *)

Lemma is_str_true (r : json) (k : string) :
  is_str r k = true <-> r = JStr k.
Proof.
  destruct r; simpl; try (split; [discriminate | intros H; inversion H]).
  rewrite String.eqb_eq. split; [intros -> | intros H; inversion H]; auto.
Qed.

Lemma is_complete_after s st s1 v s2 n :
  state s = (Ok st, s1) ->
  jobs s1 = (Ok v, s2) ->
  py_len v = Ok n ->
  is_complete s
  = (if negb (Nat.eqb (List.length st) n) then Ok false
     else res_bind (last_item st) (fun l =>
          res_bind (getitem l "result") (fun r =>
          Ok (is_str r "SUCCESS"))),
     s2).
Proof.
  intros Hs Hj Hn. unfold is_complete.
  rewrite (bind_ok _ _ _ _ _ Hs), (bind_ok _ _ _ _ _ Hj).
  rewrite (bind_ok (lift (py_len v)) _ s2 n s2)
    by (unfold lift; rewrite Hn; reflexivity).
  destruct (negb (Nat.eqb (List.length st) n)); [reflexivity |].
  run_monad.
  destruct (last_item st) as [l | e]; [| reflexivity]. simpl.
  destruct (getitem l "result") as [r | e]; [| reflexivity]. simpl.
  destruct (is_str r "SUCCESS"); reflexivity.
Qed.

(** [C2] With [st] the state read and [v] the job list read, of length [n]:
    [is_complete] returns true exactly when [st] has [n] entries and the
    result of its last entry is the string SUCCESS; a different length gives
    false, and so does a last entry with any other result. *)
Theorem is_complete_iff s st s1 v s2 n :
  state s = (Ok st, s1) ->
  jobs s1 = (Ok v, s2) ->
  py_len v = Ok n ->
  (is_complete s = (Ok true, s2) <->
   List.length st = n /\
   exists l, last_item st = Ok l /\ getitem l "result" = Ok (JStr "SUCCESS")) /\
  (List.length st <> n -> is_complete s = (Ok false, s2)) /\
  (forall l r,
     List.length st = n -> last_item st = Ok l -> getitem l "result" = Ok r ->
     r <> JStr "SUCCESS" -> is_complete s = (Ok false, s2)).
Proof.
  intros Hs Hj Hn. rewrite (is_complete_after s st s1 v s2 n Hs Hj Hn).
  split; [split | split].
  - intros H. destruct (Nat.eqb (List.length st) n) eqn:He; simpl in H;
      [| discriminate].
    apply Nat.eqb_eq in He. split; [exact He |].
    destruct (last_item st) as [l | e]; [| discriminate]. simpl in H.
    destruct (getitem l "result") as [r | e] eqn:Hg; [| discriminate].
    simpl in H. exists l. split; [reflexivity |].
    rewrite Hg. f_equal. apply is_str_true. congruence.
  - intros [He (l & Hl & Hr)]. apply Nat.eqb_eq in He. rewrite He. simpl.
    rewrite Hl. simpl. rewrite Hr. reflexivity.
  - intros Hne. apply Nat.eqb_neq in Hne. rewrite Hne. reflexivity.
  - intros l r He Hl Hr Hne. apply Nat.eqb_eq in He. rewrite He. simpl.
    rewrite Hl. simpl. rewrite Hr. simpl.
    destruct (is_str r "SUCCESS") eqn:Hs'; [| reflexivity].
    apply is_str_true in Hs'. contradiction.
Qed.

(** ** Properties kept by every operation *)

Lemma preserves_ret {A} P (a : A) : preserves P (ret a).
Proof. intros s r s' HP H. inversion H; subst; exact HP. Qed.

Lemma preserves_lift {A} P (x : res A) : preserves P (lift x).
Proof. intros s r s' HP H. inversion H; subst; exact HP. Qed.

Lemma preserves_gets {A} P (f : St -> A) : preserves P (gets f).
Proof. intros s r s' HP H. inversion H; subst; exact HP. Qed.

Lemma preserves_modify P (f : St -> St) :
  (forall s, P s -> P (f s)) -> preserves P (modify f).
Proof. intros Hf s r s' HP H. inversion H; subst; auto. Qed.

Lemma preserves_bind {A B} P (m : M A) (f : A -> M B) :
  preserves P m -> (forall a, preserves P (f a)) -> preserves P (bind m f).
Proof.
  intros Hm Hf s r s' HP H. unfold bind in H.
  destruct (m s) as [[a | e] s1] eqn:Hms.
  - eapply Hf; [| exact H]. eapply Hm; eauto.
  - inversion H; subst. eapply Hm; eauto.
Qed.

Lemma preserves_except {A} P (m h : M A) :
  preserves P m -> preserves P h -> preserves P (except_IndexError m h).
Proof.
  intros Hm Hh s r s' HP H. unfold except_IndexError in H.
  destruct (m s) as [[a | e] s1] eqn:Hms.
  - inversion H; subst. eapply Hm; eauto.
  - assert (P s1) by (eapply Hm; eauto).
    destruct e; try (inversion H; subst; assumption).
    eapply Hh; eauto.
Qed.

Lemma preserves_if {A} P (b : bool) (m1 m2 : M A) :
  preserves P m1 -> preserves P m2 -> preserves P (if b then m1 else m2).
Proof. destruct b; auto. Qed.

Ltac preserve :=
  repeat first
    [ assumption
    | apply preserves_ret | apply preserves_lift | apply preserves_gets
    | apply preserves_if | apply preserves_except
    | apply preserves_bind; [| intros ?] ].

Section Preservation.

Variable P : St -> Prop.
Hypothesis P_get : forall u, preserves P (run_request u GET).
Hypothesis P_now : preserves P datetime_now.

Lemma preserves_is_state_stale : preserves P is_state_stale.
Proof.
  unfold is_state_stale. apply preserves_bind; [preserve |].
  intros [| x st]; preserve.
Qed.

Lemma preserves_visit job jd : preserves P (visit job jd).
Proof.
  unfold visit, last_job_time_of.
  apply preserves_bind; [preserve | intros u].
  apply preserves_bind; [apply P_get | intros response].
  preserve.
Qed.

Lemma preserves_collect todo : forall jd, preserves P (collect todo jd).
Proof.
  induction todo as [| job rest IH]; intros jd; simpl; [preserve |].
  apply preserves_bind; [apply preserves_visit |].
  intros [jd1 |]; [apply IH | preserve].
Qed.

Hypothesis P_pipeline : preserves P pipeline.

Lemma preserves_jobs : preserves P jobs.
Proof. unfold jobs. preserve. Qed.

Lemma preserves_state_from_setters :
  (forall jd s, P s -> P (set_state jd s)) ->
  (forall t s, P s -> P (set_state_last_updated t s)) ->
  preserves P state.
Proof.
  intros Hset Hlu. unfold state.
  apply preserves_bind; [apply preserves_is_state_stale |].
  intros stale. apply preserves_if; [preserve |].
  apply preserves_bind; [apply preserves_jobs |]. intros js.
  apply preserves_bind; [preserve |]. intros todo.
  apply preserves_bind; [apply preserves_collect |]. intros jd.
  apply preserves_bind; [apply preserves_modify; apply Hset |]. intros _.
  apply preserves_bind; [exact P_now |]. intros t.
  apply preserves_bind; [apply preserves_modify; apply Hlu |]. intros _.
  preserve.
Qed.

Hypothesis P_state : preserves P state.

Lemma preserves_latest_step : preserves P latest_step.
Proof. unfold latest_step. preserve. Qed.

Lemma preserves_is_complete : preserves P is_complete.
Proof. unfold is_complete. preserve. Qed.

Lemma preserves_is_waiting_manual_trigger :
  preserves P is_waiting_manual_trigger.
Proof.
  unfold is_waiting_manual_trigger.
  apply preserves_bind; [apply preserves_is_complete | intros c].
  apply preserves_if; [| preserve].
  apply preserves_bind; [apply preserves_latest_step | intros l].
  preserve.
Qed.

Lemma preserves_next_step : preserves P next_step.
Proof.
  unfold next_step.
  apply preserves_bind; [apply preserves_is_complete | intros c].
  preserve.
Qed.

Hypothesis P_post : forall u, preserves P (run_request u POST).

Lemma preserves_build_job job : preserves P (build_job job).
Proof.
  unfold build_job. apply preserves_bind; [preserve | intros u].
  apply P_post.
Qed.

Lemma preserves_run : preserves P run.
Proof.
  unfold run.
  apply preserves_bind; [apply preserves_jobs | intros js].
  apply preserves_bind; [preserve | intros job].
  apply preserves_build_job.
Qed.

Lemma preserves_trigger_manual_step : preserves P trigger_manual_step.
Proof.
  unfold trigger_manual_step.
  apply preserves_bind; [apply preserves_is_waiting_manual_trigger | intros w].
  apply preserves_if; [| preserve].
  apply preserves_bind; [apply preserves_next_step | intros job].
  apply preserves_bind; [apply preserves_build_job | intros r].
  preserve.
Qed.

Lemma preserves_snd {A} (m : M A) s : preserves P m -> P s -> P (snd (m s)).
Proof. intros Hm HP. destruct (m s) as [r s'] eqn:H. eapply Hm; eauto. Qed.

Lemma preserves_after c s : P s -> P (after c s).
Proof.
  intros HP. destruct c; simpl; apply preserves_snd; auto.
  - apply preserves_jobs.
  - apply preserves_is_state_stale.
  - apply preserves_latest_step.
  - apply preserves_is_complete.
  - apply preserves_is_waiting_manual_trigger.
  - apply preserves_next_step.
  - apply preserves_build_job.
  - apply preserves_run.
  - apply preserves_trigger_manual_step.
Qed.

Lemma preserves_after_all cs : forall s, P s -> P (after_all cs s).
Proof.
  induction cs as [| c cs IH]; intros s HP; simpl; [exact HP |].
  apply IH. apply preserves_after. exact HP.
Qed.

End Preservation.

Lemma preserves_run_request P u m :
  (forall w s, P s -> P (set_outside w s)) -> preserves P (run_request u m).
Proof.
  intros Hw s r s' HP H. unfold run_request in H. inversion H; subst.
  apply Hw. exact HP.
Qed.

Lemma preserves_datetime_now P :
  (forall w s, P s -> P (set_outside w s)) -> preserves P datetime_now.
Proof.
  intros Hw s r s' HP H. unfold datetime_now in H. inversion H; subst.
  apply Hw. exact HP.
Qed.

Lemma preserves_datetime_now_sent P :
  (forall s s', sent (outside s') = sent (outside s) -> P s -> P s') ->
  preserves P datetime_now.
Proof.
  intros Hw s r s' HP H. unfold datetime_now in H. inversion H; subst.
  apply (Hw s); [reflexivity | exact HP].
Qed.

Lemma preserves_pipeline_from_setter P :
  (forall v s, P s -> P (set_pipeline v s)) ->
  (forall u, preserves P (run_request u GET)) ->
  preserves P pipeline.
Proof.
  intros Hset Hget. unfold pipeline.
  apply preserves_bind; [preserve | intros p].
  apply preserves_bind; [| intros; preserve].
  apply preserves_if; [| preserve].
  apply preserves_bind; [preserve | intros u].
  apply preserves_bind; [apply Hget | intros r].
  apply preserves_bind; [preserve | intros body].
  apply preserves_modify. apply Hset.
Qed.

(** ** The definition cache *)

Lemma pipeline_populated s :
  truthy (_pipeline s) = true -> pipeline s = (Ok (_pipeline s), s).
Proof.
  intros H. unfold pipeline. run_monad. rewrite H. reflexivity.
Qed.

Lemma pipeline_unpopulated s :
  truthy (_pipeline s) = false ->
  pipeline s
  = match http E (outside s) (pipeline_request s) with
    | Ok resp =>
        match json_body resp with
        | Ok body => (Ok body, set_pipeline body (send (pipeline_request s) s))
        | Raise e => (Raise e, send (pipeline_request s) s)
        end
    | Raise e => (Raise e, send (pipeline_request s) s)
    end.
Proof.
  intros H. unfold pipeline, run_request. run_monad. rewrite H. simpl.
  fold (pipeline_request s).
  destruct (http E (outside s) (pipeline_request s)) as [resp | e];
    [| reflexivity].
  destruct (json_body resp); reflexivity.
Qed.

Lemma pipeline_returns_cache s body s1 :
  pipeline s = (Ok body, s1) -> _pipeline s1 = body.
Proof.
  destruct (truthy (_pipeline s)) eqn:Ht.
  - rewrite (pipeline_populated s Ht). intros H; inversion H; reflexivity.
  - rewrite (pipeline_unpopulated s Ht).
    destruct (http E (outside s) (pipeline_request s)) as [resp | e];
      [| discriminate].
    destruct (json_body resp); [| discriminate].
    intros H; inversion H; reflexivity.
Qed.

Lemma jobs_populated s :
  truthy (_pipeline s) = true ->
  jobs s = (dict_get (_pipeline s) "jobs" (JList []), s).
Proof.
  intros H. unfold jobs. rewrite (bind_ok _ _ _ _ _ (pipeline_populated s H)).
  reflexivity.
Qed.

Lemma populated_kept p cs s :
  truthy p = true -> _pipeline s = p -> _pipeline (after_all cs s) = p.
Proof.
  intros Hp. revert s.
  assert (Hget : forall u m,
             preserves (fun s => _pipeline s = p) (run_request u m)).
  { intros u m. apply preserves_run_request. intros w s H; exact H. }
  assert (Hnow : preserves (fun s => _pipeline s = p) datetime_now).
  { apply preserves_datetime_now. intros w s H; exact H. }
  assert (Hpipe : preserves (fun s => _pipeline s = p) pipeline).
  { intros s r s' HP H. rewrite pipeline_populated in H by congruence.
    inversion H; subst. reflexivity. }
  apply (preserves_after_all (fun s => _pipeline s = p)); auto.
  apply preserves_state_from_setters; auto.
Qed.


(** ** The timestamps of the cached state *)

Lemma state_field_pipeline l : preserves (fun s => _state s = l) pipeline.
Proof.
  apply preserves_pipeline_from_setter.
  - intros v s H; exact H.
  - intros u. apply preserves_run_request. intros w s H; exact H.
Qed.

Lemma ascending_state_kept : preserves (fun s => ascending (_state s)) state.
Proof.
  intros s r s' HP H.
  set (Q := fun x : St => _state x = _state s).
  assert (Hget : forall u, preserves Q (run_request u GET)).
  { intros u. apply preserves_run_request. intros w x Hx; exact Hx. }
  assert (Hnow : preserves Q datetime_now).
  { apply preserves_datetime_now. intros w x Hx; exact Hx. }
  assert (Hpipe : preserves Q pipeline) by apply state_field_pipeline.
  unfold state, bind in H.
  destruct (is_state_stale s) as [[stale | e] s0] eqn:Hs.
  2:{ inversion H; subst.
      rewrite (preserves_is_state_stale Q Hnow s _ _ eq_refl Hs). exact HP. }
  pose proof (preserves_is_state_stale Q Hnow s _ _ eq_refl Hs) as H0.
  destruct stale; simpl in H.
  2:{ unfold gets in H. inversion H; subst. rewrite H0. exact HP. }
  destruct (jobs s0) as [[js | e] s1] eqn:Hj.
  2:{ inversion H; subst.
      rewrite (preserves_jobs Q Hpipe s0 _ _ H0 Hj). exact HP. }
  pose proof (preserves_jobs Q Hpipe s0 _ _ H0 Hj) as H1.
  unfold lift in H.
  destruct (py_iter js) as [todo | e].
  2:{ inversion H; subst. rewrite H1. exact HP. }
  destruct (collect todo [] s1) as [[jd | e] s2] eqn:Hc.
  2:{ inversion H; subst.
      rewrite (preserves_collect Q Hget todo [] s1 _ _ H1 Hc). exact HP. }
  unfold modify, datetime_now, gets in H. inversion H; subst. simpl.
  eapply collect_ascending; [apply ascending_nil | exact Hc].
Qed.

Lemma ascending_kept cs s :
  ascending (_state s) -> ascending (_state (after_all cs s)).
Proof.
  apply (preserves_after_all (fun s => ascending (_state s))).
  - apply preserves_datetime_now. intros w x Hx; exact Hx.
  - intros x r x' HP H.
    rewrite (state_field_pipeline (_state x) x r x' eq_refl H). exact HP.
  - exact ascending_state_kept.
  - intros u. apply preserves_run_request. intros w x Hx; exact Hx.
Qed.

(** [C4] Whatever calls were made on an object since it was built, the
    sequence [state] returns has each entry's timestamp at least that of the
    entry before it.  And in the loop, a record fetched with an in-range
    status whose timestamp is below that of the last entry kept is not
    appended, and the loop goes on with the remaining jobs. *)
Theorem state_timestamps_ascend :
  (forall url name a ttl w s0 cs st s',
     init url name a ttl w = Ok s0 ->
     state (after_all cs s0) = (Ok st, s') ->
     ascending st) /\
  (forall job rest jd s u resp rec t lt,
     getitem job "url" = Ok u ->
     http E (outside s) (last_build_request s u) = Ok resp ->
     200 <= status_code resp < 400 ->
     json_body resp = Ok rec ->
     timestamp_of rec = Ok t ->
     last_time jd lt ->
     t < lt ->
     visit job jd s = (Ok (Some jd), send (last_build_request s u) s) /\
     collect (job :: rest) jd s
     = collect rest jd (send (last_build_request s u) s)).
Proof.
  split.
  - intros url name a ttl w s0 cs st s' Hi H.
    assert (H0 : ascending (_state s0)).
    { unfold init in Hi. destruct (last_char url); [| discriminate].
      inversion Hi; subst. simpl. apply ascending_nil. }
    pose proof (ascending_kept cs s0 H0) as H1.
    pose proof (ascending_state_kept _ _ _ H1 H) as H2.
    assert (Hst : _state s' = st).
    { clear - H. unfold state, bind in H.
      destruct (is_state_stale (after_all cs s0)) as [[stale | e] x0];
        [| discriminate].
      destruct stale; simpl in H.
      - destruct (jobs x0) as [[js | e] x1]; [| discriminate].
        unfold lift in H. destruct (py_iter js) as [todo | e];
          [| discriminate].
        destruct (collect todo [] x1) as [[jd | e] x2]; [| discriminate].
        unfold modify, datetime_now, gets in H. inversion H; subst.
        reflexivity.
      - unfold gets in H. inversion H; subst. reflexivity. }
    rewrite <- Hst. exact H2.
  - intros job rest jd s u resp rec t lt Hu Hr Hc Hb Ht Hlast Hlt.
    assert (Hv : visit job jd s
                 = (Ok (Some jd), send (last_build_request s u) s)).
    { unfold visit.
      rewrite (bind_ok _ _ _ _ _ (lift_ok _ u s Hu)).
      rewrite (bind_ok _ _ _ _ _ (run_request_ok s u resp Hr)).
      rewrite (out_of_range_false _ Hc).
      rewrite (bind_ok _ _ _ _ _ (last_job_time_of_last_time jd lt _ Hlast)).
      rewrite (bind_ok _ _ _ _ _ (lift_ok _ rec _ Hb)).
      rewrite (bind_ok _ _ _ _ _ (lift_ok _ t _ Ht)).
      replace (t >=? lt) with false; [reflexivity |].
      symmetry. rewrite Z.geb_leb. apply Z.leb_gt. exact Hlt. }
    split; [exact Hv |].
    simpl. rewrite (bind_ok _ _ _ _ _ Hv). reflexivity.
Qed.

(** ** Triggering the next step *)

Lemma frozen_tick s js st : frozen s js st -> frozen (tick s) js st.
Proof.
  intros (Hp & Hj & Hs & Hne & Hfresh). repeat split; auto.
  intros n Hn. simpl in *. apply Hfresh. lia.
Qed.

Lemma frozen_jobs s js st :
  frozen s js st -> jobs s = (Ok (JList js), s).
Proof.
  intros (Hp & Hj & _). rewrite (jobs_populated s Hp), Hj. reflexivity.
Qed.

Lemma frozen_state s js st :
  frozen s js st -> state s = (Ok st, tick s).
Proof.
  intros (_ & _ & Hs & Hne & Hfresh). subst st.
  apply state_cached; [exact Hne |].
  specialize (Hfresh (clock_reads (outside s)) (Nat.le_refl _)).
  destruct s as [a b c d e f g [l n]]; simpl in *. exact Hfresh.
Qed.

Lemma frozen_is_complete s js st :
  frozen s js st ->
  is_complete s
  = (if negb (Nat.eqb (List.length st) (List.length js)) then Ok false
     else res_bind (last_item st) (fun l =>
          res_bind (getitem l "result") (fun r =>
          Ok (is_str r "SUCCESS"))),
     tick s).
Proof.
  intros H.
  apply (is_complete_after s st (tick s) (JList js) (tick s)).
  - apply (frozen_state s js st H).
  - apply (frozen_jobs (tick s) js st). apply frozen_tick. exact H.
  - reflexivity.
Qed.

Lemma frozen_latest_step s js st :
  frozen s js st -> exists l, last_item st = Ok l /\
                              latest_step s = (Ok l, tick s).
Proof.
  intros H. pose proof (frozen_state s js st H) as Hs.
  destruct H as (_ & _ & _ & Hne & _).
  destruct (last_item st) as [l | e] eqn:Hl.
  - exists l. split; [reflexivity |].
    unfold latest_step, except_IndexError.
    rewrite (bind_ok _ _ _ _ _ Hs). unfold lift. rewrite Hl. reflexivity.
  - apply last_item_raises in Hl as [-> _]. congruence.
Qed.

Lemma frozen_next_step s js st job :
  frozen s js st ->
  List.length st <> List.length js ->
  nth_error js (List.length st) = Some job ->
  next_step s = (Ok job, tick (tick s)).
Proof.
  intros H Hne Hn. unfold next_step.
  assert (Hc : is_complete s = (Ok false, tick s)).
  { rewrite (frozen_is_complete s js st H).
    apply Nat.eqb_neq in Hne. rewrite Hne. reflexivity. }
  rewrite (bind_ok _ _ _ _ _ Hc). change (negb false) with true. cbv iota.
  pose proof (frozen_tick s js st H) as H1.
  unfold except_IndexError.
  rewrite (bind_ok _ _ _ _ _ (frozen_jobs _ js st H1)).
  rewrite (bind_ok _ _ _ _ _ (frozen_state _ js st H1)).
  unfold lift, getindex. rewrite Hn. reflexivity.
Qed.

(** [C10] With the job list [js] and the state [st] held fixed by the two
    caches and [st] no longer than [js]: when [is_waiting_manual_trigger]
    returns true, [st] is strictly shorter than [js], [next_step] returns the
    job at index [length st] of [js], and [trigger_manual_step] is
    [build_job] on that very job. *)
Theorem manual_trigger_builds_a_job s js st s1 :
  frozen s js st ->
  (List.length st <= List.length js)%nat ->
  is_waiting_manual_trigger s = (Ok true, s1) ->
  (List.length st < List.length js)%nat /\
  exists job s2,
    nth_error js (List.length st) = Some job /\
    next_step s1 = (Ok job, s2) /\
    trigger_manual_step s
    = match build_job job s2 with
      | (Ok r, s3) => (Ok (Some r), s3)
      | (Raise e, s3) => (Raise e, s3)
      end.
Proof.
  intros H Hle Hw.
  pose proof Hw as Hw0.
  pose proof (frozen_tick s js st H) as H1.
  destruct (frozen_latest_step _ js st H1) as (l & Hl & Hls).
  unfold is_waiting_manual_trigger in Hw. unfold bind at 1 in Hw.
  rewrite (frozen_is_complete s js st H) in Hw.
  assert (Hne : List.length st <> List.length js).
  { intros He. apply Nat.eqb_eq in He. rewrite He in Hw.
    change (negb true) with false in Hw. cbv iota in Hw.
    rewrite Hl in Hw. simpl res_bind in Hw.
    destruct (getitem l "result") as [r | e] eqn:Hr; simpl res_bind in Hw;
      [| discriminate].
    destruct (is_str r "SUCCESS") eqn:Hs; simpl in Hw.
    - unfold ret in Hw. discriminate.
    - unfold bind at 1 in Hw. rewrite Hls in Hw.
      unfold bind, lift, ret in Hw. rewrite Hr, Hs in Hw. discriminate. }
  assert (Hs1 : s1 = tick (tick s)).
  { apply Nat.eqb_neq in Hne. rewrite Hne in Hw.
    change (negb false) with true in Hw. cbv beta iota in Hw.
    change (negb false) with true in Hw. cbv iota in Hw.
    unfold bind at 1 in Hw. rewrite Hls in Hw. unfold lift, bind, ret in Hw.
    destruct (getitem l "result"); inversion Hw; reflexivity. }
  split; [lia |].
  destruct (nth_error js (List.length st)) as [job |] eqn:Hn.
  2:{ apply nth_error_None in Hn. lia. }
  pose proof (frozen_tick _ js st H1) as H2.
  exists job, (tick (tick s1)). split; [reflexivity |].
  subst s1. split.
  - apply (frozen_next_step _ js st job H2 Hne Hn).
  - unfold trigger_manual_step.
    rewrite (bind_ok _ _ _ _ _ Hw0).
    rewrite (bind_ok _ _ _ _ _ (frozen_next_step _ js st job H2 Hne Hn)).
    unfold bind, ret.
    destruct (build_job job (tick (tick (tick (tick s))))) as [[r | e] s3];
      reflexivity.
Qed.

(** What [next_step] and [trigger_manual_step] do once the predicate they
    consult has returned. *)
Lemma next_step_not_complete s s1 js s2 st s3 :
  is_complete s = (Ok false, s1) ->
  jobs s1 = (Ok (JList js), s2) ->
  state s2 = (Ok st, s3) ->
  next_step s
  = (Ok match nth_error js (List.length st) with
        | Some j => j
        | None => JNull
        end, s3).
Proof.
  intros Hc Hj Hs. unfold next_step. rewrite (bind_ok _ _ _ _ _ Hc).
  change (negb false) with true. cbv iota. unfold except_IndexError.
  rewrite (bind_ok _ _ _ _ _ Hj), (bind_ok _ _ _ _ _ Hs).
  unfold lift, getindex, ret.
  destruct (nth_error js (List.length st)); reflexivity.
Qed.

Lemma next_step_complete s s1 :
  is_complete s = (Ok true, s1) -> next_step s = (Ok JNull, s1).
Proof.
  intros Hc. unfold next_step. rewrite (bind_ok _ _ _ _ _ Hc). reflexivity.
Qed.

Lemma trigger_manual_step_not_waiting s s1 :
  is_waiting_manual_trigger s = (Ok false, s1) ->
  trigger_manual_step s = (Ok None, s1).
Proof.
  intros H. unfold trigger_manual_step. rewrite (bind_ok _ _ _ _ _ H).
  reflexivity.
Qed.

Lemma trigger_manual_step_waiting s s1 :
  is_waiting_manual_trigger s = (Ok true, s1) ->
  trigger_manual_step s
  = match next_step s1 with
    | (Ok job, s2) =>
        match build_job job s2 with
        | (Ok r, s3) => (Ok (Some r), s3)
        | (Raise e, s3) => (Raise e, s3)
        end
    | (Raise e, s2) => (Raise e, s2)
    end.
Proof.
  intros H. unfold trigger_manual_step. rewrite (bind_ok _ _ _ _ _ H).
  unfold bind, ret.
  destruct (next_step s1) as [[job | e] s2]; [| reflexivity].
  destruct (build_job job s2) as [[r | e] s3]; reflexivity.
Qed.

Lemma trigger_manual_step_raising s e s1 :
  is_waiting_manual_trigger s = (Raise e, s1) ->
  trigger_manual_step s = (Raise e, s1).
Proof.
  intros H. unfold trigger_manual_step. apply bind_raise. exact H.
Qed.

Lemma is_waiting_manual_trigger_only_gets s r s1 :
  is_waiting_manual_trigger s = (r, s1) ->
  only_gets_since (sent (outside s)) s1.
Proof.
  intros H.
  set (P := only_gets_since (sent (outside s))).
  assert (Hget : forall u, preserves P (run_request u GET)).
  { intros u x rx x' (new & Hnew & Hall) Hx. unfold run_request in Hx.
    inversion Hx; subst.
    exists (new ++ [mkRequest GET u (auth x)]). simpl. rewrite Hnew.
    split; [rewrite app_assoc; reflexivity |].
    apply Forall_app. split; [exact Hall | repeat constructor]. }
  assert (Hnow : preserves P datetime_now).
  { apply preserves_datetime_now_sent. intros x y Hxy (new & Hnew & Hall).
    exists new. rewrite Hxy. auto. }
  assert (Hpipe : preserves P pipeline).
  { apply preserves_pipeline_from_setter; [| exact Hget].
    intros v x Hx; exact Hx. }
  assert (Hstate : preserves P state).
  { apply preserves_state_from_setters; auto. }
  apply (preserves_is_waiting_manual_trigger P Hpipe Hstate s r s1);
    [| exact H].
  exists []. rewrite app_nil_r. split; [reflexivity | constructor].
Qed.

(** * Further facts *)

(** ** Construction *)

Lemma list_ascii_of_string_app (a b : string) :
  list_ascii_of_string (a ++ b)%string
  = list_ascii_of_string a ++ list_ascii_of_string b.
Proof. induction a; simpl; congruence. Qed.

Lemma last_char_snoc (base : string) (c : ascii) :
  last_char (base ++ String c EmptyString)%string = Some c.
Proof.
  unfold last_char. rewrite list_ascii_of_string_app, rev_app_distr.
  reflexivity.
Qed.

Lemma drop_last_snoc (base : string) (c : ascii) :
  drop_last (base ++ String c EmptyString)%string = base.
Proof.
  unfold drop_last. rewrite list_ascii_of_string_app. simpl.
  rewrite removelast_last. apply string_of_list_ascii_of_string.
Qed.

Lemma last_char_none (url : string) : last_char url = None -> url = EmptyString.
Proof.
  unfold last_char. destruct url as [| c url]; [reflexivity |].
  simpl. destruct (rev (list_ascii_of_string url)); discriminate.
Qed.

(** [X1] Construction fails with [IndexError] exactly on the empty URL.  One
    trailing slash is cut from the URL, and only one; a URL that does not end
    in a slash is kept.  The caches start empty, so the definition URL is the
    cut URL followed by [/view/<name>/api/json]. *)
Theorem init_cuts_one_slash :
  (forall url name a ttl w,
     init url name a ttl w = Raise IndexError <-> url = EmptyString) /\
  (forall base name a ttl w,
     init (base ++ "/")%string name a ttl w
     = Ok (mkSt base name a (JDict []) ttl [] distant_past w) /\
     pipeline_url (mkSt base name a (JDict []) ttl [] distant_past w)
     = (base ++ "/view/" ++ name ++ "/api/json")%string) /\
  (forall url c name a ttl w,
     last_char url = Some c -> c <> "/"%char ->
     init url name a ttl w
     = Ok (mkSt url name a (JDict []) ttl [] distant_past w)).
Proof.
  split; [| split].
  - intros url name a ttl w. unfold init. split.
    + destruct (last_char url) eqn:H; [discriminate |].
      intros _. apply last_char_none. exact H.
    + intros ->. reflexivity.
  - intros base name a ttl w. unfold init.
    rewrite (last_char_snoc base "/"%char). simpl.
    rewrite (drop_last_snoc base "/"%char). split; reflexivity.
  - intros url c name a ttl w Hc Hne. unfold init. rewrite Hc.
    destruct (Ascii.eqb c "/"%char) eqn:He; [| reflexivity].
    apply Ascii.eqb_eq in He. contradiction.
Qed.

(** ** What every call leaves alone *)

Lemma preserves_read P :
  (forall u, preserves P (run_request u GET)) ->
  preserves P datetime_now ->
  (forall v s, P s -> P (set_pipeline v s)) ->
  (forall jd s, P s -> P (set_state jd s)) ->
  (forall t s, P s -> P (set_state_last_updated t s)) ->
  forall c s, is_read c = true -> P s -> P (after c s).
Proof.
  intros Hget Hnow Hsetp Hsets Hsetl.
  assert (Hpipe : preserves P pipeline)
    by (apply preserves_pipeline_from_setter; assumption).
  assert (Hstate : preserves P state)
    by (apply preserves_state_from_setters; assumption).
  intros c s Hc HP. destruct c; try discriminate Hc; simpl;
    apply preserves_snd; try assumption.
  - apply preserves_jobs; assumption.
  - apply preserves_is_state_stale; assumption.
  - apply preserves_latest_step; assumption.
  - apply preserves_is_complete; assumption.
  - apply preserves_is_waiting_manual_trigger; assumption.
  - apply preserves_next_step; assumption.
Qed.

Lemma preserves_calls P :
  (forall u m, preserves P (run_request u m)) ->
  preserves P datetime_now ->
  (forall v s, P s -> P (set_pipeline v s)) ->
  (forall jd s, P s -> P (set_state jd s)) ->
  (forall t s, P s -> P (set_state_last_updated t s)) ->
  forall cs s, P s -> P (after_all cs s).
Proof.
  intros Hreq Hnow Hsetp Hsets Hsetl.
  assert (Hpipe : preserves P pipeline)
    by (apply preserves_pipeline_from_setter; auto).
  assert (Hstate : preserves P state)
    by (apply preserves_state_from_setters; auto).
  apply preserves_after_all; auto.
Qed.

Lemma sent_since_refl ok s : sent_since ok (sent (outside s)) s.
Proof. exists []. rewrite app_nil_r. split; [reflexivity | constructor]. Qed.

Lemma sent_since_same ok base s s' :
  sent (outside s') = sent (outside s) ->
  sent_since ok base s -> sent_since ok base s'.
Proof. intros H (new & Hnew & Hall). exists new. rewrite H. auto. Qed.

Lemma sent_since_send (ok : request -> Prop) base rq s :
  ok rq -> sent_since ok base s -> sent_since ok base (send rq s).
Proof.
  intros Hok (new & Hnew & Hall). exists (new ++ [rq]). simpl.
  rewrite Hnew, app_assoc. split; [reflexivity |].
  apply Forall_app. split; [exact Hall | repeat constructor; exact Hok].
Qed.

(** [X2] Whatever calls are made on an object, its URL, pipeline name,
    credential and TTL stay what they were, the log of requests only grows,
    and every request sent carries the object's credential. *)
Theorem settings_kept_and_credential_sent cs s :
  settings (after_all cs s) = settings s /\
  sent_since (fun rq => rq_auth rq = auth s) (sent (outside s))
             (after_all cs s).
Proof.
  apply (preserves_calls
           (fun x => settings x = settings s /\
                     sent_since (fun rq => rq_auth rq = auth s)
                                (sent (outside s)) x)).
  - intros u m x r x' [Hcfg Hsent] H. unfold run_request in H.
    inversion H; subst. split; [exact Hcfg |].
    apply sent_since_send; [| exact Hsent].
    simpl. unfold settings in Hcfg. congruence.
  - intros x r x' [Hcfg Hsent] H. unfold datetime_now in H.
    inversion H; subst. split; [exact Hcfg |].
    eapply sent_since_same; [| exact Hsent]. reflexivity.
  - intros v x [Hcfg Hsent]. split; [exact Hcfg |].
    eapply sent_since_same; [| exact Hsent]. reflexivity.
  - intros jd x [Hcfg Hsent]. split; [exact Hcfg |].
    eapply sent_since_same; [| exact Hsent]. reflexivity.
  - intros t x [Hcfg Hsent]. split; [exact Hcfg |].
    eapply sent_since_same; [| exact Hsent]. reflexivity.
  - split; [reflexivity | apply sent_since_refl].
Qed.

(** [X3] The reading calls ([pipeline], [jobs], [is_state_stale], [state],
    [latest_step], [is_complete], [is_waiting_manual_trigger], [next_step])
    send nothing but GETs, in whatever order and number they are made and
    whether they return or raise. *)
Theorem reading_sends_only_gets cs s :
  Forall (fun c => is_read c = true) cs ->
  sent_since (fun rq => rq_method rq = GET) (sent (outside s))
             (after_all cs s).
Proof.
  set (P := sent_since (fun rq => rq_method rq = GET) (sent (outside s))).
  intros Hcs.
  assert (Hstep : forall c x, is_read c = true -> P x -> P (after c x)).
  { apply preserves_read.
    - intros u x r x' Hx H. unfold run_request in H. inversion H; subst.
      apply sent_since_send; [reflexivity | exact Hx].
    - intros x r x' Hx H. unfold datetime_now in H. inversion H; subst.
      eapply sent_since_same; [| exact Hx]. reflexivity.
    - intros v x Hx. eapply sent_since_same; [| exact Hx]. reflexivity.
    - intros jd x Hx. eapply sent_since_same; [| exact Hx]. reflexivity.
    - intros t x Hx. eapply sent_since_same; [| exact Hx]. reflexivity. }
  assert (H0 : P s) by apply sent_since_refl.
  clearbody P. revert s H0.
  induction Hcs as [| c cs Hc _ IH]; intros s H0; simpl; [exact H0 |].
  apply IH. apply Hstep; assumption.
Qed.

(** ** Triggering builds *)

Lemma gets_after_read base c s :
  is_read c = true ->
  sent_since (fun rq => rq_method rq = GET) base s ->
  sent_since (fun rq => rq_method rq = GET) base (after c s).
Proof.
  apply (preserves_read
           (sent_since (fun rq => rq_method rq = GET) base)).
  - intros u x r x' Hx H. unfold run_request in H. inversion H; subst.
    apply sent_since_send; [reflexivity | exact Hx].
  - intros x r x' Hx H. unfold datetime_now in H. inversion H; subst.
    eapply sent_since_same; [| exact Hx]. reflexivity.
  - intros v x Hx. eapply sent_since_same; [| exact Hx]. reflexivity.
  - intros jd x Hx. eapply sent_since_same; [| exact Hx]. reflexivity.
  - intros t x Hx. eapply sent_since_same; [| exact Hx]. reflexivity.
Qed.

Lemma auth_kept cs s : auth (after_all cs s) = auth s.
Proof.
  apply (preserves_calls (fun x => auth x = auth s)); try reflexivity;
    try (intros; assumption).
  - intros u m x r x' Hx H. unfold run_request in H. inversion H; subst.
    exact Hx.
  - intros x r x' Hx H. unfold datetime_now in H. inversion H; subst.
    exact Hx.
Qed.

Lemma build_job_inv job s r s' :
  build_job job s = (r, s') ->
  (exists e, getitem job "url" = Raise e /\ r = Raise e /\ s' = s) \/
  (exists u, getitem job "url" = Ok u /\
             r = http E (outside s) (build_request s u) /\
             s' = send (build_request s u) s).
Proof.
  unfold build_job, bind, lift, run_request.
  destruct (getitem job "url") as [u | e]; intros H; inversion H; subst.
  - right. exists u. repeat split.
  - left. exists e. repeat split.
Qed.

(** [X4] [trigger_manual_step] sends at most one POST, as the last of its
    requests and built from the object's credential; everything before it is
    a GET, and there is no POST at all unless [is_waiting_manual_trigger]
    returned true. *)
Theorem trigger_manual_step_posts_at_most_once s r s' :
  trigger_manual_step s = (r, s') ->
  exists gets posts,
    sent (outside s') = sent (outside s) ++ gets ++ posts /\
    Forall (fun rq => rq_method rq = GET) gets /\
    (posts = [] \/ exists u, posts = [build_request s u]) /\
    (fst (is_waiting_manual_trigger s) <> Ok true -> posts = []).
Proof.
  intros H. unfold trigger_manual_step, bind in H.
  destruct (is_waiting_manual_trigger s) as [[w | e] s1] eqn:Hw.
  - pose proof (gets_after_read (sent (outside s)) CallIsWaitingManualTrigger
                  s eq_refl (sent_since_refl _ s)) as G1.
    simpl in G1. rewrite Hw in G1. simpl in G1.
    destruct w.
    + destruct (next_step s1) as [[job | e] s2] eqn:Hn.
      * pose proof (gets_after_read (sent (outside s)) CallNextStep
                      s1 eq_refl G1) as G2.
        simpl in G2. rewrite Hn in G2. simpl in G2.
        destruct G2 as (gets & Hgets & Hall).
        assert (Hauth : auth s2 = auth s).
        { pose proof (auth_kept [CallIsWaitingManualTrigger; CallNextStep] s)
            as Ha. simpl in Ha. rewrite Hw in Ha. simpl in Ha.
          rewrite Hn in Ha. exact Ha. }
        destruct (build_job job s2) as [rb sb] eqn:Hb.
        assert (Hs' : s' = sb) by (destruct rb; inversion H; reflexivity).
        subst sb.
        apply build_job_inv in Hb
          as [(e & _ & _ & ->) | (u & _ & _ & ->)].
        -- exists gets, []. rewrite app_nil_r.
           split; [exact Hgets |]. split; [exact Hall |]. split; auto.
        -- exists gets, [build_request s u]. simpl. rewrite Hgets.
           unfold build_request. rewrite Hauth. rewrite <- app_assoc.
           split; [reflexivity |]. split; [exact Hall |].
           split; [right; exists u; reflexivity |].
           intros Hne. exfalso. apply Hne. reflexivity.
      * inversion H; subst.
        pose proof (gets_after_read (sent (outside s)) CallNextStep
                      s1 eq_refl G1) as G2.
        simpl in G2. rewrite Hn in G2. simpl in G2.
        destruct G2 as (gets & Hgets & Hall).
        exists gets, []. rewrite app_nil_r.
        split; [exact Hgets |]. split; [exact Hall |]. split; auto.
    + unfold ret in H. inversion H; subst.
      destruct G1 as (gets & Hgets & Hall).
      exists gets, []. rewrite app_nil_r.
      split; [exact Hgets |]. split; [exact Hall |]. split; auto.
  - inversion H; subst.
    pose proof (gets_after_read (sent (outside s)) CallIsWaitingManualTrigger
                  s eq_refl (sent_since_refl _ s)) as G1.
    simpl in G1. rewrite Hw in G1. simpl in G1.
    destruct G1 as (gets & Hgets & Hall).
    exists gets, []. rewrite app_nil_r.
    split; [exact Hgets |]. split; [exact Hall |]. split; auto.
Qed.

(** [X5] [run] builds the first job of the list [jobs] returns: with an
    empty list it raises [IndexError] and posts nothing; with a first job
    that has a [url] it sends exactly one request after those of [jobs], the
    POST to that URL followed by [build], and returns the transport's answer
    as it is; with a first job that has no [url] it raises and posts
    nothing. *)
Theorem run_builds_first_job s v s1 :
  jobs s = (Ok v, s1) ->
  (v = JList [] -> run s = (Raise IndexError, s1)) /\
  (forall job rest u,
     v = JList (job :: rest) -> getitem job "url" = Ok u ->
     run s = (http E (outside s1) (build_request s1 u),
              send (build_request s1 u) s1)) /\
  (forall job rest e,
     v = JList (job :: rest) -> getitem job "url" = Raise e ->
     run s = (Raise e, s1)).
Proof.
  intros Hj. unfold run. rewrite (bind_ok _ _ _ _ _ Hj).
  split; [| split].
  - intros ->. reflexivity.
  - intros job rest u -> Hu. unfold bind, lift, getindex. simpl.
    unfold build_job, bind, lift, run_request. rewrite Hu. reflexivity.
  - intros job rest e -> Hu. unfold bind, lift, getindex. simpl.
    unfold build_job, bind, lift. rewrite Hu. reflexivity.
Qed.

Lemma state_cache_kept_by_build (a : list json) (b ttl : Z) :
  let P := fun x : St =>
             _state x = a /\ state_last_updated x = b /\
             max_state_cache x = ttl in
  (forall job, preserves P (build_job job)) /\ preserves P run.
Proof.
  intros P.
  assert (Hreq : forall u m, preserves P (run_request u m)).
  { intros u m. apply preserves_run_request. intros w x Hx; exact Hx. }
  assert (Hpipe : preserves P pipeline).
  { apply preserves_pipeline_from_setter; [| intros u; apply Hreq].
    intros v x Hx; exact Hx. }
  split.
  - intros job. apply preserves_build_job. intros u; apply Hreq.
  - apply preserves_run; [exact Hpipe | intros u; apply Hreq].
Qed.

(** [X6] Triggering a build leaves the state cache alone: after [build_job]
    or [run] the cached state and the time of its last update are what they
    were.  So a [state] read after [run], while the clock is still within the
    TTL of the old update, returns the state from before the build was
    triggered. *)
Theorem triggering_keeps_state_cache s :
  (forall job,
     _state (snd (build_job job s)) = _state s /\
     state_last_updated (snd (build_job job s)) = state_last_updated s) /\
  _state (snd (run s)) = _state s /\
  state_last_updated (snd (run s)) = state_last_updated s /\
  (_state s <> [] ->
   now E (outside (snd (run s))) - state_last_updated s <= max_state_cache s ->
   fst (state (snd (run s))) = Ok (_state s)).
Proof.
  destruct (state_cache_kept_by_build (_state s) (state_last_updated s)
              (max_state_cache s)) as [Hb Hr].
  assert (Hrun : _state (snd (run s)) = _state s /\
                 state_last_updated (snd (run s)) = state_last_updated s /\
                 max_state_cache (snd (run s)) = max_state_cache s).
  { destruct (run s) as [r s'] eqn:H. apply (Hr s r s'); auto. }
  split; [| split; [| split]].
  - intros job. destruct (build_job job s) as [r s'] eqn:H.
    destruct (Hb job s r s') as (H1 & H2 & _); auto.
  - apply Hrun.
  - apply Hrun.
  - intros Hne Hd. destruct Hrun as (H1 & H2 & H3).
    rewrite state_cached.
    + simpl. rewrite H1. reflexivity.
    + rewrite H1. exact Hne.
    + rewrite H2, H3. exact Hd.
Qed.

(** ** What the cached state always looks like *)

Lemma state_returns_cache s st s' : state s = (Ok st, s') -> _state s' = st.
Proof.
  intros H. unfold state, bind in H.
  destruct (is_state_stale s) as [[stale | e] x0]; [| discriminate].
  destruct stale; simpl in H.
  - destruct (jobs x0) as [[js | e] x1]; [| discriminate].
    unfold lift in H. destruct (py_iter js) as [todo | e]; [| discriminate].
    destruct (collect todo [] x1) as [[jd | e] x2]; [| discriminate].
    unfold modify, datetime_now, gets in H. inversion H; subst. reflexivity.
  - unfold gets in H. inversion H; subst. reflexivity.
Qed.

(** A property of lists that the loop keeps, and the empty list has, holds
    of the cached state after [state], however it ends. *)
Lemma state_cache_property (Q : list json -> Prop) :
  Q [] ->
  (forall todo jd s st s',
     Q jd -> collect todo jd s = (Ok st, s') -> Q st) ->
  preserves (fun s => Q (_state s)) state.
Proof.
  intros Hnil Hloop s r s' HP H.
  set (K := fun x : St => _state x = _state s).
  assert (Hget : forall u, preserves K (run_request u GET)).
  { intros u. apply preserves_run_request. intros w x Hx; exact Hx. }
  assert (Hnow : preserves K datetime_now).
  { apply preserves_datetime_now. intros w x Hx; exact Hx. }
  assert (Hpipe : preserves K pipeline) by apply state_field_pipeline.
  unfold state, bind in H.
  destruct (is_state_stale s) as [[stale | e] s0] eqn:Hs.
  2:{ inversion H; subst.
      rewrite (preserves_is_state_stale K Hnow s _ _ eq_refl Hs). exact HP. }
  pose proof (preserves_is_state_stale K Hnow s _ _ eq_refl Hs) as H0.
  destruct stale; simpl in H.
  2:{ unfold gets in H. inversion H; subst. rewrite H0. exact HP. }
  destruct (jobs s0) as [[js | e] s1] eqn:Hj.
  2:{ inversion H; subst.
      rewrite (preserves_jobs K Hpipe s0 _ _ H0 Hj). exact HP. }
  pose proof (preserves_jobs K Hpipe s0 _ _ H0 Hj) as H1.
  unfold lift in H.
  destruct (py_iter js) as [todo | e].
  2:{ inversion H; subst. rewrite H1. exact HP. }
  destruct (collect todo [] s1) as [[jd | e] s2] eqn:Hc.
  2:{ inversion H; subst.
      rewrite (preserves_collect K Hget todo [] s1 _ _ H1 Hc). exact HP. }
  unfold modify, datetime_now, gets in H. inversion H; subst. simpl.
  eapply Hloop; [exact Hnil | exact Hc].
Qed.

Lemma cache_property_kept (Q : list json -> Prop) :
  Q [] ->
  (forall todo jd s st s',
     Q jd -> collect todo jd s = (Ok st, s') -> Q st) ->
  forall cs s, Q (_state s) -> Q (_state (after_all cs s)).
Proof.
  intros Hnil Hloop.
  apply (preserves_after_all (fun s => Q (_state s))).
  - apply preserves_datetime_now. intros w x Hx; exact Hx.
  - intros x r x' HP H.
    rewrite (state_field_pipeline (_state x) x r x' eq_refl H). exact HP.
  - apply state_cache_property; assumption.
  - intros u. apply preserves_run_request. intros w x Hx; exact Hx.
Qed.

Lemma init_state_empty url name a ttl w s0 :
  init url name a ttl w = Ok s0 -> _state s0 = [] /\ _pipeline s0 = JDict [].
Proof.
  unfold init. destruct (last_char url); [| discriminate].
  intros H; inversion H; subst. split; reflexivity.
Qed.

Lemma collect_stamped todo : forall jd s st s',
  stamped jd -> collect todo jd s = (Ok st, s') -> stamped st.
Proof.
  induction todo as [| job rest IH]; intros jd s st s' Hjd H.
  - simpl in H. unfold ret in H. inversion H; subst. exact Hjd.
  - simpl in H. unfold bind at 1 in H.
    destruct (visit job jd s) as [[r | e] s1] eqn:Hv; [| discriminate].
    apply visit_inv in Hv as (u & resp & Hu & Hr & -> & Ht).
    inversion Ht; subst.
    + unfold ret in H. inversion H; subst. exact Hjd.
    + eapply IH; [| exact H]. apply Forall_app. split; [exact Hjd |].
      constructor; [| constructor]. eexists; eassumption.
    + eapply IH; eauto.
Qed.

Lemma timestamp_of_dict x t :
  timestamp_of x = Ok t -> exists d, x = JDict d /\ assoc "timestamp" d <> None.
Proof.
  unfold timestamp_of, getitem. destruct x; try discriminate.
  intros H. exists d. split; [reflexivity |].
  destruct (assoc "timestamp" d); [discriminate | discriminate H].
Qed.

(** [X7] Whatever calls were made on an object since it was built, every
    entry of the state it returns, fresh or cached, is a dictionary with a
    [timestamp] that [int] reads. *)
Theorem state_entries_are_stamped url name a ttl w s0 cs st s' :
  init url name a ttl w = Ok s0 ->
  state (after_all cs s0) = (Ok st, s') ->
  Forall (fun x => exists d t, x = JDict d /\ assoc "timestamp" d <> None /\
                               timestamp_of x = Ok t) st.
Proof.
  intros Hi H.
  assert (H0 : stamped (_state (after_all cs s0))).
  { apply (cache_property_kept stamped); [constructor | | ].
    - intros; eapply collect_stamped; eauto.
    - destruct (init_state_empty _ _ _ _ _ _ Hi) as [-> _]. constructor. }
  pose proof (state_cache_property stamped (Forall_nil _)
                (fun todo jd s st s' => collect_stamped todo jd s st s')
                _ _ _ H0 H) as H1.
  simpl in H1. rewrite (state_returns_cache _ _ _ H) in H1.
  eapply Forall_impl; [| exact H1]. intros x [t Ht].
  destruct (timestamp_of_dict x t Ht) as (d & -> & Hd).
  exists d, t. repeat split; assumption.
Qed.

Lemma latest_step_after s st s1 :
  state s = (Ok st, s1) ->
  latest_step s
  = (match last_item st with Ok l => Ok l | Raise _ => Ok JNull end, s1).
Proof.
  intros H. unfold latest_step, except_IndexError.
  rewrite (bind_ok _ _ _ _ _ H). unfold lift.
  destruct (last_item st) as [l | e] eqn:Hl; [reflexivity |].
  apply last_item_raises in Hl as [_ ->]. reflexivity.
Qed.

(** [X8] [latest_step] never raises [IndexError].  On an object built by
    [init] and used through its calls, when [state] returns [st] it returns
    the last entry of [st], and [None] exactly when [st] is empty. *)
Theorem latest_step_is_last_or_none :
  (forall s, fst (latest_step s) <> Raise IndexError) /\
  (forall url name a ttl w s0 cs st s1,
     init url name a ttl w = Ok s0 ->
     state (after_all cs s0) = (Ok st, s1) ->
     exists l,
       latest_step (after_all cs s0) = (Ok l, s1) /\
       (l = JNull <-> st = []) /\
       (st <> [] -> last_item st = Ok l)).
Proof.
  split.
  - intros s. unfold latest_step, except_IndexError.
    destruct (bind state (fun st => lift (last_item st)) s) as [[l | e] s1];
      [discriminate |].
    destruct e; discriminate.
  - intros url name a ttl w s0 cs st s1 Hi H.
    assert (Hst : stamped st).
    { assert (H0 : stamped (_state (after_all cs s0))).
      { apply (cache_property_kept stamped); [constructor | | ].
        - intros; eapply collect_stamped; eauto.
        - destruct (init_state_empty _ _ _ _ _ _ Hi) as [-> _]. constructor. }
      pose proof (state_cache_property stamped (Forall_nil _)
                    (fun todo jd s st s' => collect_stamped todo jd s st s')
                    _ _ _ H0 H) as H1.
      simpl in H1. rewrite (state_returns_cache _ _ _ H) in H1. exact H1. }
    rewrite (latest_step_after _ _ _ H).
    destruct st as [| x st] using rev_ind.
    + exists JNull. simpl. repeat split; congruence.
    + rewrite last_item_snoc. exists x. split; [reflexivity |].
      apply Forall_app in Hst as [_ Hx]. inversion Hx as [| ? ? [t Ht] _].
      destruct (timestamp_of_dict x t Ht) as (d & -> & _).
      split; [| reflexivity].
      split; [discriminate | intros Hnil; destruct st; discriminate].
Qed.

(** ** The state never outgrows the job list *)

Lemma within_jobs_pipeline : preserves within_jobs pipeline.
Proof.
  intros s r s' HP H.
  destruct (truthy (_pipeline s)) eqn:Ht.
  - rewrite (pipeline_populated s Ht) in H. inversion H; subst. exact HP.
  - destruct HP as [Hnil | [Htrue _]]; [| congruence].
    rewrite (pipeline_unpopulated s Ht) in H. left.
    destruct (http E (outside s) (pipeline_request s)) as [resp | e].
    + destruct (json_body resp); inversion H; subst; exact Hnil.
    + inversion H; subst. exact Hnil.
Qed.

Lemma jobs_returns s js s1 :
  jobs s = (Ok js, s1) -> dict_get (_pipeline s1) "jobs" (JList []) = Ok js.
Proof.
  unfold jobs, bind, lift.
  destruct (pipeline s) as [[p | e] s0] eqn:Hp; [| discriminate].
  apply pipeline_returns_cache in Hp. subst p.
  intros H; inversion H; subst. first [assumption | reflexivity].
Qed.

Lemma falsy_definition_has_no_jobs p js :
  truthy p = false -> dict_get p "jobs" (JList []) = Ok js -> js = JList [].
Proof.
  destruct p; simpl; try discriminate.
  destruct d; [| discriminate]. simpl. intros _ H; inversion H; reflexivity.
Qed.

Lemma within_jobs_state : preserves within_jobs state.
Proof.
  intros s r s' HP H.
  assert (Hout : forall w x, within_jobs x -> within_jobs (set_outside w x))
    by (intros w x Hx; exact Hx).
  assert (Hget : forall u, preserves within_jobs (run_request u GET))
    by (intros u; apply preserves_run_request; exact Hout).
  assert (Hnow : preserves within_jobs datetime_now)
    by (apply preserves_datetime_now; exact Hout).
  unfold state, bind in H.
  destruct (is_state_stale s) as [[stale | e] s0] eqn:Hs.
  2:{ inversion H; subst.
      apply (preserves_is_state_stale within_jobs Hnow s _ _ HP Hs). }
  pose proof (preserves_is_state_stale within_jobs Hnow s _ _ HP Hs) as H0.
  destruct stale; simpl in H.
  2:{ unfold gets in H. inversion H; subst. exact H0. }
  destruct (jobs s0) as [[js | e] s1] eqn:Hj.
  2:{ inversion H; subst.
      apply (preserves_jobs within_jobs within_jobs_pipeline s0 _ _ H0 Hj). }
  pose proof (preserves_jobs within_jobs within_jobs_pipeline s0 _ _ H0 Hj)
    as H1.
  unfold lift in H.
  destruct (py_iter js) as [todo | e] eqn:Hi.
  2:{ inversion H; subst. exact H1. }
  destruct (collect todo [] s1) as [[jd | e] s2] eqn:Hc.
  2:{ inversion H; subst.
      apply (preserves_collect within_jobs Hget todo [] s1 _ _ H1 Hc). }
  unfold modify, datetime_now, gets in H. inversion H; subst.
  assert (Hp : _pipeline s2 = _pipeline s1).
  { assert (Hg : forall u, preserves (fun x => _pipeline x = _pipeline s1)
                                      (run_request u GET)).
    { intros u. apply preserves_run_request. intros w x Hx; exact Hx. }
    exact (preserves_collect (fun x => _pipeline x = _pipeline s1) Hg
             todo [] s1 (Ok jd) s2 eq_refl Hc). }
  pose proof (jobs_returns _ _ _ Hj) as Hjs.
  unfold within_jobs. simpl. rewrite Hp.
  destruct (truthy (_pipeline s1)) eqn:Ht.
  - right. split; [reflexivity |].
    exists js, (List.length todo). split; [exact Hjs |].
    split; [apply py_iter_len; exact Hi |].
    apply collect_length in Hc. simpl in Hc. exact Hc.
  - left. pose proof (falsy_definition_has_no_jobs _ _ Ht Hjs) as ->.
    simpl in Hi. inversion Hi; subst. simpl in Hc. unfold ret in Hc.
    inversion Hc; reflexivity.
Qed.

Lemma within_jobs_kept cs s : within_jobs s -> within_jobs (after_all cs s).
Proof.
  apply (preserves_after_all within_jobs).
  - apply preserves_datetime_now. intros w x Hx; exact Hx.
  - exact within_jobs_pipeline.
  - exact within_jobs_state.
  - intros u. apply preserves_run_request. intros w x Hx; exact Hx.
Qed.

(** [X9] On an object built by [init] and used through its calls, the cached
    state is empty or no longer than the job list of the definition cache.
    So whenever [state] returns [st] and [jobs], read next, returns a value
    of length [n], [st] has at most [n] entries. *)
Theorem state_never_longer_than_jobs url name a ttl w s0 cs :
  init url name a ttl w = Ok s0 ->
  within_jobs (after_all cs s0) /\
  (forall st s1 v s2 n,
     state (after_all cs s0) = (Ok st, s1) ->
     jobs s1 = (Ok v, s2) ->
     py_len v = Ok n ->
     (List.length st <= n)%nat).
Proof.
  intros Hi.
  assert (H0 : within_jobs (after_all cs s0)).
  { apply within_jobs_kept. left.
    apply (init_state_empty _ _ _ _ _ _ Hi). }
  split; [exact H0 |].
  intros st s1 v s2 n Hs Hj Hn.
  pose proof (within_jobs_state _ _ _ H0 Hs) as H1.
  pose proof (state_returns_cache _ _ _ Hs) as Hst.
  destruct H1 as [Hnil | (Ht & v' & n' & Hv' & Hn' & Hle)].
  - rewrite Hnil in Hst. subst st. simpl. lia.
  - rewrite (jobs_populated s1 Ht), Hv' in Hj. inversion Hj; subst.
    rewrite Hn' in Hn. inversion Hn; subst. exact Hle.
Qed.

(** ** The requests of a rebuild *)

Lemma collect_asks_prefix todo : forall jd s r s',
  collect todo jd s = (r, s') ->
  exists n, (n <= List.length todo)%nat /\
            s' = asked s (firstn n todo) /\
            forall st, r = Ok st ->
                       (List.length st <= List.length jd + n)%nat.
Proof.
  induction todo as [| job rest IH]; intros jd s r s' H.
  - simpl in H. unfold ret in H. inversion H; subst.
    exists 0%nat. simpl. rewrite asked_nil. repeat split; [lia |].
    intros st Hst. inversion Hst; subst. lia.
  - simpl in H. unfold bind at 1 in H.
    destruct (visit job jd s) as [[[jd1 |] | e] s1] eqn:Hv.
    + pose proof Hv as Hv'.
      apply visit_inv in Hv' as (u & resp & Hu & _ & -> & Ht).
      apply IH in H as (n & Hn & -> & Hlen).
      exists (S n). simpl. split; [lia |].
      split; [symmetry; apply asked_cons; exact Hu |].
      intros st Hst. specialize (Hlen st Hst).
      inversion Ht; subst; try rewrite length_app in Hlen; simpl in Hlen; lia.
    + apply visit_inv in Hv as (u & resp & Hu & _ & -> & _).
      unfold ret in H. inversion H; subst.
      exists 1%nat. simpl. split; [lia |].
      split; [rewrite (asked_cons s job u [] Hu), asked_nil; reflexivity |].
      intros st Hst. inversion Hst; subst. lia.
    + inversion H; subst.
      apply visit_state in Hv as [-> | (u & Hu & ->)].
      * exists 0%nat. simpl. rewrite asked_nil.
        split; [lia |]. split; [reflexivity | discriminate].
      * exists 1%nat. simpl. split; [lia |].
        split; [rewrite (asked_cons s job u [] Hu), asked_nil; reflexivity |].
        discriminate.
Qed.

(** [X10] A rebuild asks for the last build of the first [n] jobs, in the
    order of the job list and each once, for some [n] up to the number of
    jobs, and sends nothing else, whether it returns or raises; the state it
    returns has at most [n] entries. *)
Theorem rebuild_asks_jobs_in_order s s0 js s1 todo :
  is_state_stale s = (Ok true, s0) ->
  jobs s0 = (Ok js, s1) ->
  py_iter js = Ok todo ->
  exists n,
    (n <= List.length todo)%nat /\
    sent (outside (snd (state s)))
    = sent (outside s1) ++ requests_for s1 (firstn n todo) /\
    forall st, fst (state s) = Ok st -> (List.length st <= n)%nat.
Proof.
  intros Hs Hj Hi. rewrite (state_rebuild s s0 js s1 todo Hs Hj Hi).
  destruct (collect todo [] s1) as [r s2] eqn:Hc.
  apply collect_asks_prefix in Hc as (n & Hn & -> & Hlen).
  exists n. split; [exact Hn |].
  destruct r as [jd | e]; simpl.
  - split; [reflexivity |]. intros st Hst. inversion Hst; subst.
    apply (Hlen st eq_refl).
  - split; [reflexivity | discriminate].
Qed.

(** ** Edges of the job list and of the state *)

Lemma state_of_no_jobs s :
  truthy (_pipeline s) = true ->
  dict_get (_pipeline s) "jobs" (JList []) = Ok (JList []) ->
  _state s = [] ->
  state s = (Ok [], stored [] s).
Proof.
  intros Ht Hj Hs.
  rewrite (state_rebuild s s (JList []) s []); [reflexivity | | | reflexivity].
  - apply is_state_stale_empty. exact Hs.
  - rewrite (jobs_populated s Ht), Hj. reflexivity.
Qed.

(** [X11] With a definition cache that holds no jobs (an empty [jobs] list
    or no [jobs] key at all) and an empty state cache, [state] returns the
    empty list without sending anything, and [is_complete], [next_step],
    [is_waiting_manual_trigger], [trigger_manual_step] and [run] all raise
    [IndexError]. *)
Theorem empty_job_list_raises_IndexError s :
  truthy (_pipeline s) = true ->
  dict_get (_pipeline s) "jobs" (JList []) = Ok (JList []) ->
  _state s = [] ->
  state s = (Ok [], stored [] s) /\
  sent (outside (stored [] s)) = sent (outside s) /\
  is_complete s = (Raise IndexError, stored [] s) /\
  next_step s = (Raise IndexError, stored [] s) /\
  is_waiting_manual_trigger s = (Raise IndexError, stored [] s) /\
  trigger_manual_step s = (Raise IndexError, stored [] s) /\
  run s = (Raise IndexError, s).
Proof.
  intros Ht Hj Hs.
  pose proof (state_of_no_jobs s Ht Hj Hs) as Hst.
  assert (Hc : is_complete s = (Raise IndexError, stored [] s)).
  { rewrite (is_complete_after s [] (stored [] s) (JList [])
               (stored [] s) 0%nat Hst); [reflexivity | | reflexivity].
    rewrite (jobs_populated (stored [] s) Ht). simpl. rewrite Hj.
    reflexivity. }
  assert (Hw : is_waiting_manual_trigger s = (Raise IndexError, stored [] s)).
  { unfold is_waiting_manual_trigger. apply bind_raise. exact Hc. }
  split; [exact Hst |]. split; [reflexivity |]. split; [exact Hc |].
  split; [unfold next_step; apply bind_raise; exact Hc |].
  split; [exact Hw |].
  split; [unfold trigger_manual_step; apply bind_raise; exact Hw |].
  unfold run. rewrite (bind_ok jobs _ s (JList []) s).
  - reflexivity.
  - rewrite (jobs_populated s Ht), Hj. reflexivity.
Qed.

(** [X12] When [is_complete] returns false and the state read after it is
    empty, [latest_step] is [None] and [is_waiting_manual_trigger] raises
    [TypeError] on its [result]; so does [trigger_manual_step]. *)
Theorem waiting_on_empty_state_raises_TypeError s s1 s2 :
  is_complete s = (Ok false, s1) ->
  state s1 = (Ok [], s2) ->
  latest_step s1 = (Ok JNull, s2) /\
  is_waiting_manual_trigger s = (Raise TypeError, s2) /\
  trigger_manual_step s = (Raise TypeError, s2).
Proof.
  intros Hc Hs.
  assert (Hl : latest_step s1 = (Ok JNull, s2)).
  { rewrite (latest_step_after s1 [] s2 Hs). reflexivity. }
  assert (Hw : is_waiting_manual_trigger s = (Raise TypeError, s2)).
  { unfold is_waiting_manual_trigger. rewrite (bind_ok _ _ _ _ _ Hc).
    change (negb false) with true. cbv iota.
    rewrite (bind_ok _ _ _ _ _ Hl). reflexivity. }
  split; [exact Hl |]. split; [exact Hw |].
  unfold trigger_manual_step. apply bind_raise. exact Hw.
Qed.

(** [X13] A cached state that is not empty is still served when the clock
    shows exactly the TTL since the last update; once the clock shows more,
    the state is collected anew from the job list, starting from the empty
    accumulator, and replaces the cached one. *)
Theorem state_served_through_ttl s :
  _state s <> [] ->
  (now E (outside s) - state_last_updated s = max_state_cache s ->
   state s = (Ok (_state s), tick s)) /\
  (forall js,
     max_state_cache s < now E (outside s) - state_last_updated s ->
     truthy (_pipeline s) = true ->
     dict_get (_pipeline s) "jobs" (JList []) = Ok (JList js) ->
     state s = match collect js [] (tick s) with
               | (Ok jd, s2) => (Ok jd, stored jd s2)
               | (Raise e, s2) => (Raise e, s2)
               end).
Proof.
  intros Hne. split.
  - intros Hd. apply state_cached; [exact Hne | lia].
  - intros js Hd Ht Hj.
    apply (state_rebuild s (tick s) (JList js) (tick s) js).
    + rewrite (is_state_stale_nonempty s Hne).
      replace (now E (outside s) - state_last_updated s >? max_state_cache s)
        with true; [reflexivity |].
      symmetry. apply Z.gtb_lt. lia.
    + rewrite (jobs_populated (tick s) Ht). simpl. rewrite Hj. reflexivity.
    + reflexivity.
Qed.

Lemma jobs_of_non_object s :
  truthy (_pipeline s) = true ->
  (forall d, _pipeline s <> JDict d) ->
  jobs s = (Raise AttributeError, s).
Proof.
  intros Ht Hnd. rewrite (jobs_populated s Ht).
  destruct (_pipeline s); try reflexivity.
  exfalso. apply (Hnd d). reflexivity.
Qed.

Lemma is_state_stale_inv s r s0 :
  is_state_stale s = (r, s0) ->
  exists b, r = Ok b /\ _pipeline s0 = _pipeline s /\ _state s0 = _state s.
Proof.
  destruct (_state s) as [| x st] eqn:Hs.
  - rewrite (is_state_stale_empty s Hs). intros H; inversion H; subst.
    exists true. auto.
  - rewrite is_state_stale_nonempty by congruence.
    intros H; inversion H; subst. eexists.
    split; [reflexivity |]. split; [reflexivity | simpl; exact Hs].
Qed.

(** [X14] A definition cache that holds a non-empty value which is not an
    object (a JSON list, string, number or [true]) is never fetched again,
    and from then on [jobs], [run], [is_complete], [next_step] and
    [trigger_manual_step] raise [AttributeError] on every call; [jobs] does so
    without sending anything. *)
Theorem non_object_definition_fails_for_good s cs :
  truthy (_pipeline s) = true ->
  (forall d, _pipeline s <> JDict d) ->
  jobs (after_all cs s) = (Raise AttributeError, after_all cs s) /\
  run (after_all cs s) = (Raise AttributeError, after_all cs s) /\
  fst (is_complete (after_all cs s)) = Raise AttributeError /\
  fst (next_step (after_all cs s)) = Raise AttributeError /\
  fst (trigger_manual_step (after_all cs s)) = Raise AttributeError.
Proof.
  intros Ht Hnd.
  pose proof (populated_kept (_pipeline s) cs s Ht eq_refl) as Hk.
  set (x := after_all cs s) in *.
  assert (Ht' : truthy (_pipeline x) = true) by (rewrite Hk; exact Ht).
  assert (Hnd' : forall d, _pipeline x <> JDict d)
    by (rewrite Hk; exact Hnd).
  pose proof (jobs_of_non_object x Ht' Hnd') as Hj.
  assert (Hc : fst (is_complete x) = Raise AttributeError).
  { unfold is_complete, bind at 1.
    destruct (state x) as [[st | e] x1] eqn:Hs.
    - assert (Hp : _pipeline x1 = _pipeline x).
      { apply (preserves_state_from_setters
                 (fun y => _pipeline y = _pipeline x)) with (s := x)
                 (r := Ok st); auto.
        - intros u. apply preserves_run_request. intros w y Hy; exact Hy.
        - apply preserves_datetime_now. intros w y Hy; exact Hy.
        - intros y r y' Hy H.
          rewrite pipeline_populated in H by (rewrite Hy; exact Ht').
          inversion H; subst. exact Hy. }
      rewrite (bind_raise jobs _ x1 AttributeError x1); [reflexivity |].
      apply jobs_of_non_object; rewrite Hp; assumption.
    - unfold state, bind in Hs.
      destruct (is_state_stale x) as [r0 x0] eqn:H0.
      destruct (is_state_stale_inv _ _ _ H0) as (b & -> & Hp0 & _).
      destruct b; simpl in Hs; [| unfold gets in Hs; discriminate].
      rewrite jobs_of_non_object in Hs
        by (rewrite Hp0; assumption).
      inversion Hs; subst. reflexivity. }
  split; [exact Hj |].
  split; [unfold run; apply bind_raise; exact Hj |].
  split; [exact Hc |].
  assert (Hraise : forall {A B} (m : M A) (f : A -> M B) y e,
             fst (m y) = Raise e -> fst (bind m f y) = Raise e).
  { intros A B m f y e H. unfold bind.
    destruct (m y) as [[a | e'] y']; simpl in *; congruence. }
  split; [unfold next_step; apply Hraise; exact Hc |].
  unfold trigger_manual_step. apply Hraise.
  unfold is_waiting_manual_trigger. apply Hraise. exact Hc.
Qed.

(** [X15] With a definition cache whose [jobs] is not a list and not empty
    ([null], a number, a non-empty string or object), a rebuild of the state
    raises [TypeError] before any request goes out. *)
Theorem non_list_jobs_raise_TypeError s v :
  truthy (_pipeline s) = true ->
  dict_get (_pipeline s) "jobs" (JList []) = Ok v ->
  (forall l, v <> JList l) ->
  py_len v <> Ok 0%nat ->
  _state s = [] ->
  state s = (Raise TypeError, s).
Proof.
  intros Ht Hj Hnl Hlen Hs. unfold state.
  rewrite (bind_ok _ _ _ _ _ (is_state_stale_empty s Hs)).
  change (negb true) with false. cbv iota.
  rewrite (bind_ok jobs _ s v s)
    by (rewrite (jobs_populated s Ht), Hj; reflexivity).
  destruct v as [| b | z | str | l | d]; try reflexivity.
  - destruct str as [| c str]; [exfalso; apply Hlen; reflexivity |].
    reflexivity.
  - exfalso. apply (Hnl l). reflexivity.
  - destruct d as [| [k x] d]; [exfalso; apply Hlen; reflexivity |].
    reflexivity.
Qed.

Lemma pipeline_unpopulated_sent s r s' :
  truthy (_pipeline s) = false ->
  pipeline s = (r, s') ->
  sent (outside s') = sent (outside s) ++ [pipeline_request s].
Proof.
  intros Ht H. rewrite (pipeline_unpopulated s Ht) in H.
  destruct (http E (outside s) (pipeline_request s)) as [resp | e].
  - destruct (json_body resp); inversion H; subst; reflexivity.
  - inversion H; subst. reflexivity.
Qed.

(** [X16] The first [state] read of a newly built object misses the cache
    whatever the clock shows, and the first request it sends is the GET of
    the pipeline definition. *)
Theorem first_state_read_fetches_definition url name a ttl w s0 :
  init url name a ttl w = Ok s0 ->
  is_state_stale s0 = (Ok true, s0) /\
  exists rest,
    sent (outside (snd (state s0))) = sent w ++ pipeline_request s0 :: rest.
Proof.
  intros Hi.
  destruct (init_state_empty _ _ _ _ _ _ Hi) as [Hs Hp].
  assert (Hw : outside s0 = w).
  { unfold init in Hi. destruct (last_char url); [| discriminate].
    inversion Hi; reflexivity. }
  split; [apply is_state_stale_empty; exact Hs |].
  set (P := sent_since (fun _ => True)
                       (sent (outside s0) ++ [pipeline_request s0])).
  assert (HP : P (snd (state s0))).
  { assert (Hget : forall u, preserves P (run_request u GET)).
    { intros u x r x' Hx H. unfold run_request in H. inversion H; subst.
      apply sent_since_send; [exact I | exact Hx]. }
    unfold state.
    rewrite (bind_ok _ _ _ _ _ (is_state_stale_empty s0 Hs)).
    change (negb true) with false. cbv iota.
    unfold bind at 1, jobs, bind at 1.
    destruct (pipeline s0) as [[p | e] s1] eqn:Hpipe.
    - assert (H1 : P s1).
      { exists []. rewrite app_nil_r. split; [| constructor].
        eapply pipeline_unpopulated_sent; [| exact Hpipe].
        rewrite Hp. reflexivity. }
      unfold lift at 1.
      destruct (dict_get p "jobs" (JList [])) as [js | e]; [| exact H1].
      unfold bind at 1, lift at 1.
      destruct (py_iter js) as [todo | e]; [| exact H1].
      unfold bind at 1.
      destruct (collect todo [] s1) as [[jd | e] s2] eqn:Hc.
      + pose proof (preserves_collect P Hget todo [] s1 _ _ H1 Hc) as H2.
        simpl. eapply sent_since_same; [| exact H2]. reflexivity.
      + apply (preserves_collect P Hget todo [] s1 _ _ H1 Hc).
    - simpl. exists []. rewrite app_nil_r. split; [| constructor].
      eapply pipeline_unpopulated_sent; [| exact Hpipe].
      rewrite Hp. reflexivity. }
  destruct HP as (new & Hnew & _). exists new.
  rewrite Hnew, Hw, <- app_assoc. reflexivity.
Qed.

(** ** Filling the definition cache *)

(** [X17] A call of [pipeline] on an empty definition cache fills it exactly
    when the call returns a non-empty body.  After a transport failure, a
    body that does not parse, or an empty body, the cache is still empty and
    the next call sends the definition GET again. *)
Theorem definition_cached_iff_body_non_empty s r s' :
  truthy (_pipeline s) = false ->
  pipeline s = (r, s') ->
  (truthy (_pipeline s') = true <->
   exists body, r = Ok body /\ truthy body = true) /\
  (truthy (_pipeline s') = false ->
   sent (outside (snd (pipeline s')))
   = sent (outside s') ++ [pipeline_request s']).
Proof.
  intros Ht H. split.
  - rewrite (pipeline_unpopulated s Ht) in H.
    destruct (http E (outside s) (pipeline_request s)) as [resp | e].
    + destruct (json_body resp) as [body | e]; inversion H; subst; simpl.
      * split; [intros Hb; exists body; auto |].
        intros (b & Hb & Hbt). inversion Hb; subst. exact Hbt.
      * split; [congruence | intros (b & Hb & _); discriminate].
    + inversion H; subst; simpl.
      split; [congruence | intros (b & Hb & _); discriminate].
  - intros Ht'. destruct (pipeline s') as [r' s''] eqn:H'.
    apply (pipeline_unpopulated_sent s' r' s'' Ht' H').
Qed.

(** ** The next step, with both caches answering *)

Lemma frozen_is_complete_result s js st l r :
  frozen s js st ->
  List.length st = List.length js ->
  last_item st = Ok l -> getitem l "result" = Ok r ->
  is_complete s = (Ok (is_str r "SUCCESS"), tick s).
Proof.
  intros H He Hl Hr. rewrite (frozen_is_complete s js st H).
  apply Nat.eqb_eq in He. rewrite He. simpl. rewrite Hl. simpl.
  rewrite Hr. reflexivity.
Qed.

Lemma frozen_is_not_complete s js st :
  frozen s js st ->
  List.length st <> List.length js ->
  is_complete s = (Ok false, tick s).
Proof.
  intros H Hne. rewrite (frozen_is_complete s js st H).
  apply Nat.eqb_neq in Hne. rewrite Hne. reflexivity.
Qed.

(** [X18] With the job list [js] and the state [st] held fixed by the two
    caches: when [st] is shorter than [js], [next_step] returns the job at
    index [length st]; when they have the same length and the last entry has
    a [result], it returns [None], whatever that result is. *)
Theorem next_step_is_job_after_state s js st :
  frozen s js st ->
  ((List.length st < List.length js)%nat ->
   exists job, nth_error js (List.length st) = Some job /\
               next_step s = (Ok job, tick (tick s))) /\
  (forall l r,
     List.length st = List.length js ->
     last_item st = Ok l -> getitem l "result" = Ok r ->
     fst (next_step s) = Ok JNull).
Proof.
  intros H. split.
  - intros Hlt.
    destruct (nth_error js (List.length st)) as [job |] eqn:Hn.
    + exists job. split; [reflexivity |].
      apply (frozen_next_step s js st job H); [lia | exact Hn].
    + apply nth_error_None in Hn. lia.
  - intros l r He Hl Hr.
    pose proof (frozen_is_complete_result s js st l r H He Hl Hr) as Hc.
    destruct (is_str r "SUCCESS").
    + rewrite (next_step_complete s (tick s) Hc). reflexivity.
    + pose proof (frozen_tick s js st H) as H1.
      rewrite (next_step_not_complete s (tick s) js (tick s) st
                 (tick (tick s)) Hc (frozen_jobs _ js st H1)
                 (frozen_state _ js st H1)).
      simpl. replace (nth_error js (List.length st)) with (@None json);
        [reflexivity |].
      symmetry. apply nth_error_None. lia.
Qed.

(** [X19] With the job list [js] and the state [st] held fixed by the two
    caches and a last entry of [st] that has a [result]:
    [is_waiting_manual_trigger] returns true exactly when that result is
    SUCCESS and [st] and [js] differ in length. *)
Theorem is_waiting_iff_success_and_unfinished s js st l r :
  frozen s js st ->
  last_item st = Ok l -> getitem l "result" = Ok r ->
  fst (is_waiting_manual_trigger s)
  = Ok (negb (Nat.eqb (List.length st) (List.length js))
        && is_str r "SUCCESS").
Proof.
  intros H Hl Hr.
  pose proof (frozen_tick s js st H) as H1.
  destruct (frozen_latest_step _ js st H1) as (l' & Hl' & Hls).
  rewrite Hl in Hl'. inversion Hl'; subst l'.
  assert (Hlatest : forall c,
             is_complete s = (Ok false, tick s) ->
             c = is_str r "SUCCESS" ->
             fst (is_waiting_manual_trigger s) = Ok c).
  { intros c Hc ->. unfold is_waiting_manual_trigger.
    rewrite (bind_ok _ _ _ _ _ Hc). change (negb false) with true. cbv iota.
    rewrite (bind_ok _ _ _ _ _ Hls).
    rewrite (bind_ok _ _ _ _ _ (lift_ok _ r _ Hr)). reflexivity. }
  destruct (Nat.eqb (List.length st) (List.length js)) eqn:He; simpl.
  - apply Nat.eqb_eq in He.
    pose proof (frozen_is_complete_result s js st l r H He Hl Hr) as Hc.
    destruct (is_str r "SUCCESS") eqn:Hs.
    + unfold is_waiting_manual_trigger. rewrite (bind_ok _ _ _ _ _ Hc).
      reflexivity.
    + apply Hlatest; [exact Hc | reflexivity].
  - apply Nat.eqb_neq in He.
    apply Hlatest; [| reflexivity].
    apply (frozen_is_not_complete s js st H He).
Qed.

End Piper.

(** * Worked examples *)

Example init_fresh :
  init "http://ci/" "p" None 10000000 (mkWorld [] 0) = Ok fresh.
Proof. reflexivity. Qed.

Example two_done_reached : snd (state site_two_done fresh) = two_done.
Proof. vm_compute. reflexivity. Qed.

Example state_stale_middle :
  fst (state site_stale_middle fresh)
  = Ok [build 10 "SUCCESS"; build 20 "SUCCESS"].
Proof. vm_compute. reflexivity. Qed.

Example state_two_done :
  fst (state site_two_done fresh) = Ok [build 10 "SUCCESS"; build 20 "SUCCESS"].
Proof. vm_compute. reflexivity. Qed.

Example two_done_scenario :
  fst (is_complete site_two_done two_done) = Ok false /\
  fst (is_waiting_manual_trigger site_two_done two_done) = Ok true /\
  fst (next_step site_two_done two_done) = Ok job_c.
Proof. vm_compute. repeat split. Qed.

(** [C1, as stated] The second entry of the state need not be the record of
    the second job: with a middle job whose last build is older than the
    first job's, it is the record of the third. *)
Lemma state_entry_not_of_its_index :
  ~ (forall (E : Env) s s0 js s1 todo st s',
       is_state_stale E s = (Ok true, s0) ->
       jobs E s0 = (Ok js, s1) ->
       py_iter js = Ok todo ->
       state E s = (Ok st, s') ->
       forall i rec, nth_error st i = Some rec ->
                     last_build_record E s1 todo i = Some rec).
Proof.
  intros H.
  specialize (H site_stale_middle fresh fresh
                (JList [job_a; job_b; job_c])
                (snd (jobs site_stale_middle fresh))
                [job_a; job_b; job_c]
                [build 10 "SUCCESS"; build 20 "SUCCESS"]
                (snd (state site_stale_middle fresh))
                eq_refl eq_refl eq_refl eq_refl
                1%nat (build 20 "SUCCESS") eq_refl).
  vm_compute in H. discriminate H.
Qed.

Lemma state_records_follow_job_order_witness :
  (exists ks,
     StronglySorted lt ks /\
     Forall2 (fun k rec =>
                last_build_record site_two_done
                  (snd (jobs site_two_done fresh))
                  [job_a; job_b; job_c] k = Some rec)
             ks [build 10 "SUCCESS"; build 20 "SUCCESS"]) /\
  (forall i rec,
     nth_error [build 10 "SUCCESS"; build 20 "SUCCESS"] i = Some rec ->
     last_build_record site_two_done (snd (jobs site_two_done fresh))
       [job_a; job_b; job_c] i = Some rec).
Proof.
  destruct (state_records_follow_job_order site_two_done fresh fresh
              (JList [job_a; job_b; job_c]) (snd (jobs site_two_done fresh))
              [job_a; job_b; job_c] [build 10 "SUCCESS"; build 20 "SUCCESS"]
              (snd (state site_two_done fresh)))
    as [Hsub Hprefix]; try (vm_compute; reflexivity).
  split; [exact Hsub |]. apply Hprefix.
  - intros k r t Hk Ht.
    destruct k as [| [| [| k]]]; try destruct k; vm_compute in Hk;
      try discriminate Hk; inversion Hk; subst;
      vm_compute in Ht; inversion Ht; lia.
  - intros k1 k2 r1 r2 t1 t2 Hlt H1 H2 Ht1 Ht2.
    destruct k1 as [| [| [| k1]]]; try destruct k1; vm_compute in H1;
      try discriminate H1; inversion H1; subst;
      vm_compute in Ht1; inversion Ht1; subst;
      (destruct k2 as [| [| [| k2]]]; try destruct k2; vm_compute in H2;
       try discriminate H2; inversion H2; subst;
       vm_compute in Ht2; inversion Ht2; lia).
Defined.

Lemma is_complete_iff_witness :
  (is_complete site_two_done fresh
   = (Ok true, snd (jobs site_two_done two_done)) <->
   List.length [build 10 "SUCCESS"; build 20 "SUCCESS"] = 3%nat /\
   exists l, last_item [build 10 "SUCCESS"; build 20 "SUCCESS"] = Ok l /\
             getitem l "result" = Ok (JStr "SUCCESS")) /\
  is_complete site_two_done fresh
  = (Ok false, snd (jobs site_two_done two_done)).
Proof.
  destruct (is_complete_iff site_two_done fresh
              [build 10 "SUCCESS"; build 20 "SUCCESS"] two_done
              (JList [job_a; job_b; job_c])
              (snd (jobs site_two_done two_done)) 3%nat)
    as (Hiff & Hlen & _).
  - vm_compute. reflexivity.
  - vm_compute. reflexivity.
  - reflexivity.
  - split; [exact Hiff |]. apply Hlen. simpl. lia.
Defined.

(** [C3, as stated] An empty cached state is rebuilt however recent the last
    fetch: a second read one tick after the first one asks the never-built
    job for its last build again. *)
Lemma empty_state_refetched_within_ttl :
  ~ (forall (E : Env) s,
       now E (outside s) - state_last_updated s < max_state_cache s ->
       fst (state E s) = Ok (_state s) /\
       sent (outside (snd (state E s))) = sent (outside s)).
Proof.
  intros H.
  destruct (H site_never_run (snd (state site_never_run fresh))) as [_ Hsent].
  - vm_compute. reflexivity.
  - vm_compute in Hsent. discriminate Hsent.
Qed.

Lemma state_within_ttl_is_cached_witness :
  state site_two_done two_done = (Ok (_state two_done), tick two_done) /\
  sent (outside (snd (state site_two_done two_done)))
  = sent (outside two_done) /\
  _state (snd (state site_two_done two_done)) = _state two_done.
Proof.
  apply (state_within_ttl_is_cached site_two_done two_done).
  - vm_compute. discriminate.
  - vm_compute. reflexivity.
Defined.

Lemma state_timestamps_ascend_witness :
  ascending site_two_done [build 10 "SUCCESS"; build 20 "SUCCESS"].
Proof.
  apply (proj1 (state_timestamps_ascend site_two_done)
           "http://ci/" "p" None 10000000 (mkWorld [] 0) fresh
           [CallState; CallTriggerManualStep]
           [build 10 "SUCCESS"; build 20 "SUCCESS"]
           (snd (state site_two_done
                   (after_all site_two_done
                      [CallState; CallTriggerManualStep] fresh)))).
  - reflexivity.
  - vm_compute. reflexivity.
Defined.

Lemma state_is_cut_at_first_stop_witness :
  state site_two_done fresh
  = (Ok [build 10 "SUCCESS"; build 20 "SUCCESS"],
     stored site_two_done [build 10 "SUCCESS"; build 20 "SUCCESS"]
       (asked site_two_done (snd (jobs site_two_done fresh))
          [job_a; job_b; job_c])) /\
  (2 <= 3)%nat.
Proof.
  destruct (state_is_cut_at_first_stop site_two_done fresh fresh
              (JList [job_a; job_b; job_c]) (snd (jobs site_two_done fresh))
              [job_a; job_b; job_c] eq_refl eq_refl eq_refl)
    as [Hlen Hcut].
  destruct (Hcut [job_a; job_b] job_c []
              [build 10 "SUCCESS"; build 20 "SUCCESS"]
              (asked site_two_done (snd (jobs site_two_done fresh))
                 [job_a; job_b])
              (JStr "http://ci/job/c/") not_found)
    as (Hstate & _).
  - reflexivity.
  - eapply visited_cons; [vm_compute; reflexivity |].
    eapply visited_cons; [vm_compute; reflexivity |].
    apply visited_nil.
  - reflexivity.
  - reflexivity.
  - right. simpl. lia.
  - split; [exact Hstate |].
    apply (proj2 (Hlen _ _ Hstate)).
Defined.

Lemma collect_stops_on_status_out_of_range_witness :
  collect site_never_run [job_a; job_b] [] fresh
  = (Ok [],
     send (last_build_request site_never_run fresh (JStr "http://ci/job/a/"))
          fresh).
Proof.
  apply (collect_stops_on_status_out_of_range site_never_run job_a [job_b] []
           fresh (JStr "http://ci/job/a/") not_found).
  - reflexivity.
  - reflexivity.
  - right. simpl. lia.
Defined.

(** [C7] With a view that lists no jobs the state is empty too, [is_complete]
    raises [IndexError] on the last entry of the empty state, and [next_step]
    raises with it instead of returning [None]. *)
Theorem next_step_raises_without_jobs :
  fst (jobs site_no_jobs fresh) = Ok (JList []) /\
  fst (state site_no_jobs fresh) = Ok [] /\
  fst (is_complete site_no_jobs fresh) = Raise IndexError /\
  fst (next_step site_no_jobs fresh) = Raise IndexError.
Proof. vm_compute. repeat split. Qed.

(** [C8] Before the first job has ever been built the state is empty,
    [latest_step] is [None], [is_waiting_manual_trigger] raises [TypeError]
    on its [result], and [trigger_manual_step] raises with it; nothing was
    posted. *)
Theorem trigger_manual_step_raises_before_first_build :
  fst (state site_never_run fresh) = Ok [] /\
  fst (latest_step site_never_run fresh) = Ok JNull /\
  fst (is_waiting_manual_trigger site_never_run fresh) = Raise TypeError /\
  fst (trigger_manual_step site_never_run fresh) = Raise TypeError /\
  forallb (fun rq => match rq_method rq with GET => true | POST => false end)
          (sent (outside (snd (trigger_manual_step site_never_run fresh))))
  = true.
Proof. vm_compute. repeat split. Qed.

(** [C9] A view that answers 200 with the empty object: the first call of
    [pipeline] sends the GET, parses the body, stores it and returns it; the
    second call sends the same GET again, and so does [jobs] after it. *)
Theorem empty_definition_is_fetched_again :
  fst (pipeline site_empty_view fresh) = Ok (JDict []) /\
  _pipeline (snd (pipeline site_empty_view fresh)) = JDict [] /\
  sent (outside (after_all site_empty_view [CallPipeline] fresh))
  = [pipeline_request fresh] /\
  sent (outside (after_all site_empty_view [CallPipeline; CallPipeline] fresh))
  = [pipeline_request fresh; pipeline_request fresh] /\
  sent (outside (after_all site_empty_view
                   [CallPipeline; CallPipeline; CallJobs] fresh))
  = [pipeline_request fresh; pipeline_request fresh; pipeline_request fresh].
Proof. vm_compute. repeat split. Qed.


Lemma manual_trigger_builds_a_job_witness :
  (2 < 3)%nat /\
  exists job s2,
    nth_error [job_a; job_b; job_c] 2 = Some job /\
    next_step site_two_done (tick (tick two_done)) = (Ok job, s2) /\
    trigger_manual_step site_two_done two_done
    = match build_job site_two_done job s2 with
      | (Ok r, s3) => (Ok (Some r), s3)
      | (Raise e, s3) => (Raise e, s3)
      end.
Proof.
  apply (manual_trigger_builds_a_job site_two_done two_done
           [job_a; job_b; job_c] [build 10 "SUCCESS"; build 20 "SUCCESS"]
           (tick (tick two_done))).
  - repeat split.
    + discriminate.
    + intros n Hn. vm_compute. discriminate.
  - simpl. lia.
  - vm_compute. reflexivity.
Defined.

(** ** Worked examples of the further facts *)

Lemma init_cuts_one_slash_witness :
  init "http://ci//" "p" None 10000000 (mkWorld [] 0)
  = Ok (mkSt "http://ci/" "p" None (JDict []) 10000000 [] distant_past
             (mkWorld [] 0)) /\
  init "http://ci" "p" None 10000000 (mkWorld [] 0) = Ok fresh.
Proof.
  split.
  - apply (proj1 (proj2 init_cuts_one_slash) "http://ci/" "p" None 10000000
             (mkWorld [] 0)).
  - apply (proj2 (proj2 init_cuts_one_slash) "http://ci" "i"%char "p" None
             10000000 (mkWorld [] 0)).
    + reflexivity.
    + discriminate.
Defined.

Lemma reading_sends_only_gets_witness :
  sent_since (fun rq => rq_method rq = GET) (sent (outside fresh))
    (after_all site_two_done
       [CallState; CallIsComplete; CallIsWaitingManualTrigger; CallNextStep]
       fresh).
Proof.
  apply (reading_sends_only_gets site_two_done
           [CallState; CallIsComplete; CallIsWaitingManualTrigger;
            CallNextStep] fresh).
  repeat constructor.
Defined.

Lemma trigger_manual_step_posts_at_most_once_witness :
  exists gets posts,
    sent (outside (snd (trigger_manual_step site_two_done two_done)))
    = sent (outside two_done) ++ gets ++ posts /\
    Forall (fun rq => rq_method rq = GET) gets /\
    (posts = [] \/ exists u, posts = [build_request site_two_done two_done u]) /\
    (fst (is_waiting_manual_trigger site_two_done two_done) <> Ok true ->
     posts = []).
Proof.
  apply (trigger_manual_step_posts_at_most_once site_two_done two_done
           (fst (trigger_manual_step site_two_done two_done))).
  vm_compute. reflexivity.
Defined.

Lemma run_builds_first_job_witness :
  run site_two_done two_done
  = (Ok not_found,
     send (build_request site_two_done two_done (JStr "http://ci/job/a/"))
          two_done).
Proof.
  apply (proj1 (proj2 (run_builds_first_job site_two_done two_done
                         (JList [job_a; job_b; job_c]) two_done eq_refl))
           job_a [job_b; job_c] (JStr "http://ci/job/a/")).
  - reflexivity.
  - reflexivity.
Defined.

Lemma triggering_keeps_state_cache_witness :
  fst (state site_two_done (snd (run site_two_done two_done)))
  = Ok [build 10 "SUCCESS"; build 20 "SUCCESS"].
Proof.
  apply (proj2 (proj2 (proj2 (triggering_keeps_state_cache site_two_done
                                two_done)))).
  - discriminate.
  - vm_compute. discriminate.
Defined.

Lemma state_entries_are_stamped_witness :
  Forall (fun x => exists d t,
            x = JDict d /\ assoc "timestamp" d <> None /\
            timestamp_of site_stale_middle x = Ok t)
         [build 10 "SUCCESS"; build 20 "SUCCESS"].
Proof.
  apply (state_entries_are_stamped site_stale_middle "http://ci/" "p" None
           10000000 (mkWorld [] 0) fresh [CallNextStep]
           [build 10 "SUCCESS"; build 20 "SUCCESS"]
           (snd (state site_stale_middle
                   (after_all site_stale_middle [CallNextStep] fresh)))).
  - reflexivity.
  - vm_compute. reflexivity.
Defined.

Lemma latest_step_is_last_or_none_witness :
  exists l,
    latest_step site_never_run fresh
    = (Ok l, snd (state site_never_run fresh)) /\
    (l = JNull <-> @nil json = []) /\
    (@nil json <> [] -> last_item [] = Ok l).
Proof.
  apply (proj2 (latest_step_is_last_or_none site_never_run) "http://ci/" "p"
           None 10000000 (mkWorld [] 0) fresh [] []
           (snd (state site_never_run fresh))).
  - reflexivity.
  - vm_compute. reflexivity.
Defined.

Lemma state_never_longer_than_jobs_witness :
  within_jobs (after_all site_two_done [CallState; CallRun] fresh).
Proof.
  apply (state_never_longer_than_jobs site_two_done "http://ci/" "p" None
           10000000 (mkWorld [] 0) fresh [CallState; CallRun]).
  reflexivity.
Defined.

Lemma rebuild_asks_jobs_in_order_witness :
  exists n,
    (n <= 3)%nat /\
    sent (outside (snd (state site_stale_middle fresh)))
    = sent (outside (snd (jobs site_stale_middle fresh)))
      ++ requests_for site_stale_middle (snd (jobs site_stale_middle fresh))
           (firstn n [job_a; job_b; job_c]) /\
    forall st, fst (state site_stale_middle fresh) = Ok st ->
               (List.length st <= n)%nat.
Proof.
  apply (rebuild_asks_jobs_in_order site_stale_middle fresh fresh
           (JList [job_a; job_b; job_c])
           (snd (jobs site_stale_middle fresh)) [job_a; job_b; job_c]).
  - reflexivity.
  - vm_compute. reflexivity.
  - reflexivity.
Defined.

Lemma empty_job_list_raises_IndexError_witness :
  is_complete site_no_jobs (snd (pipeline site_no_jobs fresh))
  = (Raise IndexError,
     stored site_no_jobs [] (snd (pipeline site_no_jobs fresh))).
Proof.
  apply (empty_job_list_raises_IndexError site_no_jobs
           (snd (pipeline site_no_jobs fresh))).
  - reflexivity.
  - reflexivity.
  - reflexivity.
Defined.

Lemma waiting_on_empty_state_raises_TypeError_witness :
  trigger_manual_step site_never_run fresh
  = (Raise TypeError,
     snd (state site_never_run (snd (is_complete site_never_run fresh)))).
Proof.
  apply (waiting_on_empty_state_raises_TypeError site_never_run fresh
           (snd (is_complete site_never_run fresh))
           (snd (state site_never_run
                   (snd (is_complete site_never_run fresh))))).
  - vm_compute. reflexivity.
  - vm_compute. reflexivity.
Defined.

Lemma state_served_through_ttl_witness :
  state site_two_done (set_state_last_updated 999999990000000 two_done)
  = (Ok [build 10 "SUCCESS"; build 20 "SUCCESS"],
     tick (set_state_last_updated 999999990000000 two_done)).
Proof.
  assert (Hne : _state (set_state_last_updated 999999990000000 two_done)
                <> []) by discriminate.
  apply (proj1 (state_served_through_ttl site_two_done
                  (set_state_last_updated 999999990000000 two_done) Hne)).
  vm_compute. reflexivity.
Defined.

Lemma non_object_definition_fails_for_good_witness :
  jobs site_list_view
    (after_all site_list_view [CallState; CallJobs]
       (snd (pipeline site_list_view fresh)))
  = (Raise AttributeError,
     after_all site_list_view [CallState; CallJobs]
       (snd (pipeline site_list_view fresh))).
Proof.
  apply (non_object_definition_fails_for_good site_list_view
           (snd (pipeline site_list_view fresh)) [CallState; CallJobs]).
  - reflexivity.
  - intros d. vm_compute. discriminate.
Defined.

Lemma non_list_jobs_raise_TypeError_witness :
  state site_null_jobs (snd (pipeline site_null_jobs fresh))
  = (Raise TypeError, snd (pipeline site_null_jobs fresh)).
Proof.
  apply (non_list_jobs_raise_TypeError site_null_jobs
           (snd (pipeline site_null_jobs fresh)) JNull).
  - reflexivity.
  - reflexivity.
  - discriminate.
  - discriminate.
  - reflexivity.
Defined.

Lemma first_state_read_fetches_definition_witness :
  is_state_stale site_two_done fresh = (Ok true, fresh) /\
  exists rest,
    sent (outside (snd (state site_two_done fresh)))
    = [] ++ pipeline_request fresh :: rest.
Proof.
  apply (first_state_read_fetches_definition site_two_done "http://ci/" "p"
           None 10000000 (mkWorld [] 0) fresh).
  reflexivity.
Defined.

Lemma definition_cached_iff_body_non_empty_witness :
  (truthy (_pipeline (snd (pipeline site_empty_view fresh))) = true <->
   exists body, fst (pipeline site_empty_view fresh) = Ok body /\
                truthy body = true) /\
  (truthy (_pipeline (snd (pipeline site_empty_view fresh))) = false ->
   sent (outside (snd (pipeline site_empty_view
                         (snd (pipeline site_empty_view fresh)))))
   = sent (outside (snd (pipeline site_empty_view fresh)))
     ++ [pipeline_request (snd (pipeline site_empty_view fresh))]).
Proof.
  apply (definition_cached_iff_body_non_empty site_empty_view fresh
           (fst (pipeline site_empty_view fresh))
           (snd (pipeline site_empty_view fresh))).
  - reflexivity.
  - vm_compute. reflexivity.
Defined.

Lemma two_done_frozen :
  frozen site_two_done two_done [job_a; job_b; job_c]
         [build 10 "SUCCESS"; build 20 "SUCCESS"].
Proof.
  repeat split.
  - discriminate.
  - intros n Hn. vm_compute. discriminate.
Defined.

Lemma next_step_is_job_after_state_witness :
  exists job,
    nth_error [job_a; job_b; job_c] 2 = Some job /\
    next_step site_two_done two_done = (Ok job, tick (tick two_done)).
Proof.
  apply (proj1 (next_step_is_job_after_state site_two_done two_done
                  [job_a; job_b; job_c]
                  [build 10 "SUCCESS"; build 20 "SUCCESS"] two_done_frozen)).
  simpl. lia.
Defined.

Lemma is_waiting_iff_success_and_unfinished_witness :
  fst (is_waiting_manual_trigger site_two_done two_done) = Ok true.
Proof.
  apply (is_waiting_iff_success_and_unfinished site_two_done two_done
           [job_a; job_b; job_c] [build 10 "SUCCESS"; build 20 "SUCCESS"]
           (build 20 "SUCCESS") (JStr "SUCCESS") two_done_frozen).
  - reflexivity.
  - reflexivity.
Defined.
